(** * deep-search-mcp: the fetch pipeline and the report assembler

    A shallow embedding of [src/index.ts]: the retry loop [fetchWithRetry],
    the per-page fetch [fetchUrl], the windowed batch [fetchAllUrls], the
    report assembler [formatResponse] and the query construction of the
    [deep_search] handler.

    Conventions of the embedding.
    - A JavaScript string is a [string]; one [ascii] stands for one code
      unit, so [String.length] is the [.length] of the source.
    - An integer-valued [number] is a [Z] where the source can compare it
      with anything (HTTP status, delays, character limits) and a [nat]
      where it counts (array lengths, indices, the attempt counter,
      [maxRetries], the window size [concurrency]).
    - A computation that may throw has a [completion]; a computation that
      also talks to the network has an [Eff], which records the requests
      issued and the pauses taken, in order.
    - The network is not part of the program: a call of [fetchWithRetry]
      receives the answers of its successive requests as a function from
      the attempt number. Every run of the real program determines such a
      function for every call, so a statement over all of them covers all
      runs. *)

From Stdlib Require Import ZArith Lia Ascii String DecimalString.
From stdpp Require Import base tactics option list strings.

Local Open Scope Z_scope.
Local Open Scope nat_scope.

(** ** JavaScript primitives used by the source *)

Module Js.

(** A thrown value: an [Error] object with its [message], or anything
    else. *)
Inductive thrown : Type :=
| JsError (message : string)
| NonError.

(** The outcome of evaluating an expression or awaiting a promise. *)
Inductive completion (A : Type) : Type :=
| Normal (value : A)
| Throw (reason : thrown).
Arguments Normal {A} value.
Arguments Throw {A} reason.

(** [error instanceof Error ? error.message : "Unknown error"] *)
Definition errorMessage (error : thrown) : string :=
  match error with
  | JsError message => message
  | NonError => "Unknown error"
  end.

(** Truthiness of a string: every string but the empty one. *)
Definition truthy (s : string) : bool :=
  match s with
  | EmptyString => false
  | String _ _ => true
  end.

Definition newline : string := String (ascii_of_nat 10) EmptyString.
Definition dquote : string := String (ascii_of_nat 34) EmptyString.

(** The class [\s] of regular expressions, which is also what [trim]
    removes, on the code units a [string] can hold: TAB, LF, VT, FF, CR,
    SPACE and NBSP. *)
Definition isWhitespace (c : ascii) : bool :=
  let n := nat_of_ascii c in
  ((9 <=? n) && (n <=? 13)) || (n =? 32) || (n =? 160).

(** [String.prototype.includes] *)
Fixpoint includes (s pattern : string) : bool :=
  String.prefix pattern s ||
  match s with
  | EmptyString => false
  | String _ rest => includes rest pattern
  end.

(** [s.substring(0, n)]: a negative [n] counts as 0, an [n] beyond the
    end as the length. *)
Definition substring0 (s : string) (n : Z) : string :=
  String.substring 0 (Z.to_nat n) s.

Fixpoint trimStart (s : string) : string :=
  match s with
  | EmptyString => EmptyString
  | String c rest => if isWhitespace c then trimStart rest else s
  end.

Fixpoint trimEnd (s : string) : string :=
  match s with
  | EmptyString => EmptyString
  | String c rest =>
      match trimEnd rest with
      | EmptyString => if isWhitespace c then EmptyString else String c EmptyString
      | kept => String c kept
      end
  end.

(** [String.prototype.trim] *)
Definition trim (s : string) : string := trimEnd (trimStart s).

(** [s.split(sep)] for a separator of one character. The piece being
    read is [piece]; the result always has at least one element. *)
Fixpoint splitAt (sep : ascii) (piece s : string) : list string :=
  match s with
  | EmptyString => [piece]
  | String c rest =>
      if Ascii.eqb c sep then piece :: splitAt sep EmptyString rest
      else splitAt sep (piece +:+ String c EmptyString) rest
  end.

Definition split (sep : ascii) (s : string) : list string :=
  splitAt sep EmptyString s.

(** [s.split(/\s+/)]: the separators are the maximal runs of whitespace;
    [inRun] says that the previous character belonged to one. A run at
    either end leaves an empty piece there, and the empty string gives
    the one-element array of the empty string. *)
Fixpoint splitRuns (inRun : bool) (piece s : string) : list string :=
  match s with
  | EmptyString => [piece]
  | String c rest =>
      if isWhitespace c then
        if inRun then splitRuns true piece rest
        else piece :: splitRuns true EmptyString rest
      else splitRuns false (piece +:+ String c EmptyString) rest
  end.

Definition splitWhitespace (s : string) : list string :=
  splitRuns false EmptyString s.

(** [pieces.join(sep)] *)
Fixpoint join (sep : string) (pieces : list string) : string :=
  match pieces with
  | [] => EmptyString
  | [piece] => piece
  | piece :: more => piece +:+ sep +:+ join sep more
  end.

(** Template interpolation of an integer-valued number. *)
Definition numberToString (z : Z) : string :=
  NilZero.string_of_int (Z.to_int z).

Definition natToString (n : nat) : string :=
  numberToString (Z.of_nat n).

(** [l.slice(from, to)] for indices within the array. *)
Definition slice {A} (from to : nat) (l : list A) : list A :=
  take (to - from) (drop from l).

(** [arr[i] = v] on an array that may have holes. Within the array the
    slot is overwritten; beyond its end JavaScript grows the array and
    leaves holes in between. *)
Definition arraySet {A} (i : nat) (v : A) (arr : list (option A)) : list (option A) :=
  if decide (i < length arr) then <[i := Some v]> arr
  else arr ++ replicate (i - length arr) None ++ [Some v].

(** [s.replace(/\s+/g, " ")]: every maximal run of whitespace becomes one
    space. *)
Fixpoint collapseRuns (inRun : bool) (s : string) : string :=
  match s with
  | EmptyString => EmptyString
  | String c rest =>
      if isWhitespace c then
        if inRun then collapseRuns true rest
        else String " " (collapseRuns true rest)
      else String c (collapseRuns false rest)
  end.

Definition collapseWhitespace (s : string) : string := collapseRuns false s.

Definition isNewline (c : ascii) : bool := nat_of_ascii c =? 10.

(** For a match of [/\n\s*\n\s*\n/] that starts with the newline just
    before [s]: the whitespace that follows it must hold two more
    newlines, and the greedy match ends with the last newline of that
    whitespace. [seen] newlines were met in the [pos] characters read so
    far, the last of them ending at [lastEnd]. The result is the number of
    characters of [s] in the match. *)
Fixpoint blankLinesAhead (seen pos lastEnd : nat) (s : string) : option nat :=
  match s with
  | String c rest =>
      if isWhitespace c then
        if isNewline c then blankLinesAhead (S seen) (S pos) (S pos) rest
        else blankLinesAhead seen (S pos) lastEnd rest
      else if 2 <=? seen then Some lastEnd else None
  | EmptyString => if 2 <=? seen then Some lastEnd else None
  end.

(** [s.replace(/\n\s*\n\s*\n/g, "\n\n")]; [skip] characters are still to
    be dropped as part of the last match. *)
Fixpoint collapseBlankLinesFrom (skip : nat) (s : string) : string :=
  match s with
  | EmptyString => EmptyString
  | String c rest =>
      match skip with
      | S skip' => collapseBlankLinesFrom skip' rest
      | O =>
          if isNewline c then
            match blankLinesAhead 0 0 0 rest with
            | Some matched => newline +:+ newline +:+ collapseBlankLinesFrom matched rest
            | None => String c (collapseBlankLinesFrom 0 rest)
            end
          else String c (collapseBlankLinesFrom 0 rest)
      end
  end.

Definition collapseBlankLines (s : string) : string := collapseBlankLinesFrom 0 s.

(** The clean-up both extractors apply to the text they found:
    [.replace(/\s+/g, " ").replace(/\n\s*\n\s*\n/g, "\n\n").trim()] *)
Definition cleanText (s : string) : string :=
  trim (collapseBlankLines (collapseWhitespace s)).

End Js.

Import Js.

(** ** Effects: requests, pauses and exceptions *)

Inductive event : Type :=
| Request (url : string)
| Sleep (ms : Z).

(** A computation with its trace of events and its completion. *)
Definition Eff (A : Type) : Type := (list event * completion A)%type.

Definition ret {A} (a : A) : Eff A := ([], Normal a).

Definition throw {A} (reason : thrown) : Eff A := ([], Throw reason).

Definition emit (ev : event) : Eff unit := ([ev], Normal tt).

Definition lift {A} (c : completion A) : Eff A := ([], c).

Definition bind {A B} (m : Eff A) (k : A -> Eff B) : Eff B :=
  match m with
  | (t, Normal a) => let '(t', r) := k a in (t ++ t', r)
  | (t, Throw reason) => (t, Throw reason)
  end.

(** [try { body } catch (error) { handler }] *)
Definition tryCatch {A} (body : Eff A) (handler : thrown -> Eff A) : Eff A :=
  match body with
  | (t, Throw reason) => let '(t', r) := handler reason in (t ++ t', r)
  | finished => finished
  end.

Declare Scope eff_scope.
Delimit Scope eff_scope with eff.
Notation "'do' x <- m ; k" := (bind m (fun x => k))
  (at level 10, x name, m at level 100, k at level 200) : eff_scope.
Notation "'exec' m ; k" := (bind m (fun _ => k))
  (at level 10, m at level 100, k at level 200) : eff_scope.
Local Open Scope eff_scope.

Definition trace {A} (m : Eff A) : list event := fst m.
Definition outcome {A} (m : Eff A) : completion A := snd m.

(** The number of requests in a trace, and its pauses in order. *)
Fixpoint requests (t : list event) : nat :=
  match t with
  | [] => 0
  | Request _ :: rest => S (requests rest)
  | Sleep _ :: rest => requests rest
  end.

Fixpoint pauses (t : list event) : list Z :=
  match t with
  | [] => []
  | Request _ :: rest => pauses rest
  | Sleep ms :: rest => ms :: pauses rest
  end.

(** ** Data model *)

(** [interface SearchResult]; an absent [date] is [None]. Its [title] is
    [sr_title] here, the name [title] being the field of [FetchedContent]. *)
Record SearchResult : Type := {
  sr_title : string;
  link : string;
  snippet : string;
  position : Z;
  date : option string
}.

(** [interface FetchedContent]; the optional fields are options. *)
Record FetchedContent : Type := {
  url : string;
  title : string;
  content : string;
  success : bool;
  error : option string;
  wordCount : option nat
}.

Inductive SearchType : Type := web | news | images.

Definition searchTypeName (t : SearchType) : string :=
  match t with
  | web => "web"
  | news => "news"
  | images => "images"
  end.

(** A [Response] as far as the program looks at it: the status, and what
    awaiting [response.text()] gives. *)
Record Response : Type := {
  status : Z;
  text : completion string
}.

(** [response.ok]: the status is in the range 200-299. *)
Definition ok (response : Response) : bool :=
  (200 <=? status response)%Z && (status response <=? 299)%Z.

(** What the network answers to the successive requests of one call of
    [fetchWithRetry], by attempt number: a response, or a rejection of the
    [fetch] promise (a connection error, or the abort of
    [AbortSignal.timeout(15000)]). *)
Definition Network : Type := nat -> completion Response.

Definition truncationMarker : string :=
  newline +:+ newline +:+ "[Content truncated...]".

(** ** fetchWithRetry *)

(** [await fetch(url, ...)] at attempt number [attempt]. *)
Definition fetch (net : Network) (url : string) (attempt : nat) : Eff Response :=
  ([Request url], net attempt).

(** How one turn of the retry loop ends when it does not throw: the
    function returns the response, or the loop goes on with a new
    [lastError]. *)
Inductive turn : Type :=
| Return (response : Response)
| Continue (lastError : string).

Definition httpError (response : Response) : string :=
  "HTTP " +:+ numberToString (status response).

(** The [try] statement in the body of the loop. *)
Definition attemptOnce (net : Network) (url : string) (attempt : nat) : Eff turn :=
  tryCatch
    (do response <- fetch net url attempt;
     if ok response then ret (Return response)
     else if (400 <=? status response)%Z && (status response <? 500)%Z
             && negb (status response =? 429)%Z
     then throw (JsError (httpError response))
     else ret (Continue (httpError response)))
    (fun error =>
       let lastError := errorMessage error in
       if includes lastError "timeout" then throw (JsError lastError)
       else ret (Continue lastError)).

(** The pause after a failed attempt. *)
Definition backoff (maxRetries : nat) (baseDelay : Z) (attempt : nat) : Eff unit :=
  if (Z.of_nat attempt <? Z.of_nat maxRetries - 1)%Z
  then emit (Sleep (baseDelay * 2 ^ Z.of_nat attempt)%Z)
  else ret tt.

(** The [for] loop, with [remaining = maxRetries - attempt] turns left, and
    the final [throw] after it. *)
Fixpoint retryLoop (net : Network) (url : string) (maxRetries : nat) (baseDelay : Z)
    (remaining attempt : nat) (lastError : option string) : Eff Response :=
  match remaining with
  | O => throw (JsError (default "Max retries exceeded" lastError))
  | S remaining' =>
      do t <- attemptOnce net url attempt;
      match t with
      | Return response => ret response
      | Continue e =>
          exec backoff maxRetries baseDelay attempt;
          retryLoop net url maxRetries baseDelay remaining' (S attempt) (Some e)
      end
  end.

Definition fetchWithRetry (net : Network) (url : string)
    (maxRetries : nat) (baseDelay : Z) : Eff Response :=
  retryLoop net url maxRetries baseDelay maxRetries 0 None.

(** The events of a run in which the turns [from], ..., [from + turns - 1]
    all fail and the loop goes on. *)
Definition failedTurns (u : string) (maxRetries : nat) (baseDelay : Z) (from turns : nat)
    : list event :=
  flat_map (fun k => Request u :: trace (backoff maxRetries baseDelay k)) (seq from turns).

(** ** fetchUrl and fetchAllUrls *)

Section Fetcher.

(** The HTML libraries (cheerio, JSDOM, Readability) are outside the
    repository. What the program takes from them:
    - [pageTitle html]: the title that [fetchUrl] reads off the page;
    - [readabilityText html url]: the [textContent] of the article that
      [Readability] finds, [None] when it finds none;
    - [cheerioContent html]: in [extractContentWithCheerio], the text of
      the first content area, or of the body.
    Each of them may throw. *)
Variable pageTitle : string -> completion string.
Variable readabilityText : string -> string -> completion (option string).
Variable cheerioContent : string -> completion string.

Definition extractContentWithCheerio (html : string) : completion string :=
  match cheerioContent html with
  | Normal found => Normal (cleanText found)
  | Throw reason => Throw reason
  end.

(** The [try] block returns only for an article with a non-empty text;
    its [catch] clause is empty, so everything else falls through to the
    fallback. *)
Definition extractContentWithReadability (html u : string) : completion string :=
  match readabilityText html u with
  | Normal (Some textContent) =>
      if truthy textContent then Normal (cleanText textContent)
      else extractContentWithCheerio html
  | _ => extractContentWithCheerio html
  end.

(** The object returned by the [catch] clause of [fetchUrl]. *)
Definition failedFetch (u errorMsg : string) : FetchedContent :=
  {| url := u; title := EmptyString; content := EmptyString;
     success := false; error := Some errorMsg; wordCount := None |}.

Definition fetchUrl (net : Network) (u : string) (maxLength : Z) : Eff FetchedContent :=
  tryCatch
    (do response <- fetchWithRetry net u 3 1000;
     do html <- lift (text response);
     do pageTitle' <- lift (pageTitle html);
     do extracted <- lift (extractContentWithReadability html u);
     let words := length (splitWhitespace extracted) in
     let shown :=
       if (Z.of_nat (String.length extracted) >? maxLength)%Z
       then substring0 extracted maxLength +:+ truncationMarker
       else extracted in
     ret {| url := u; title := pageTitle'; content := shown;
            success := true; error := None; wordCount := Some words |})
    (fun error => ret (failedFetch u (errorMessage error))).

(** One entry of the result of [Promise.allSettled]: fulfilled with a
    value or rejected with a reason. *)
Definition settled : Type := completion FetchedContent.

(** [batch.map((url) => fetchUrl(url))] awaited by [Promise.allSettled].
    The page at index [i + idx] of [urls] is served by [nets (i + idx)];
    [k] is the index of the head of [batch] in [urls]. *)
Fixpoint settleBatch (nets : nat -> Network) (k : nat) (batch : list string) : list settled :=
  match batch with
  | [] => []
  | u :: rest => outcome (fetchUrl (nets k) u 100000) :: settleBatch nets (S k) rest
  end.

(** The record stored for a rejected promise. *)
Definition rejectedFetch (urls : list string) (globalIdx : nat) : FetchedContent :=
  {| url := default EmptyString (urls !! globalIdx);
     title := EmptyString; content := EmptyString;
     success := false; error := Some "Promise rejected"; wordCount := None |}.

(** What the callback of [forEach] stores for [result]: the value of a
    fulfilled promise, the placeholder for a rejected one. *)
Definition settledValue (urls : list string) (globalIdx : nat) (result : settled)
    : FetchedContent :=
  match result with
  | Normal value => value
  | Throw _ => rejectedFetch urls globalIdx
  end.

(** [batchResults.forEach((result, idx) => ...)], from index [idx] on. *)
Fixpoint storeBatch (urls : list string) (i idx : nat) (batchResults : list settled)
    (results : list (option FetchedContent)) : list (option FetchedContent) :=
  match batchResults with
  | [] => results
  | result :: rest =>
      let globalIdx := i + idx in
      storeBatch urls i (S idx) rest
        (arraySet globalIdx (settledValue urls globalIdx result) results)
  end.

(** The [for] loop over the windows. Its step is [concurrency], which
    the loop does not check: [fuel] bounds the number of windows, and
    [None] says that it was not enough. *)
Fixpoint batchLoop (nets : nat -> Network) (urls : list string) (concurrency : nat)
    (fuel i : nat) (results : list (option FetchedContent))
    : option (list (option FetchedContent)) :=
  if i <? length urls then
    match fuel with
    | O => None
    | S fuel' =>
        let batch := slice i (i + concurrency) urls in
        let batchResults := settleBatch nets i batch in
        batchLoop nets urls concurrency fuel' (i + concurrency)
          (storeBatch urls i 0 batchResults results)
    end
  else Some results.

(** [new Array(urls.length)] has a hole in every slot. *)
Definition fetchAllUrls (nets : nat -> Network) (urls : list string) (concurrency : nat)
    (fuel : nat) : option (list (option FetchedContent)) :=
  batchLoop nets urls concurrency fuel 0 (replicate (length urls) None).

End Fetcher.

(** ** formatResponse *)

Section Report.

(** [Number.prototype.toLocaleString] depends on the locale of the
    process. *)
Variable toLocaleString : nat -> string.

(** [fetchedContents.filter((c) => c.success).length] *)
Definition successCount (fetchedContents : list FetchedContent) : nat :=
  length (filter (fun c => success c = true) fetchedContents).

(** [fetchedContents.reduce((sum, c) => sum + (c.wordCount || 0), 0)] *)
Definition totalWords (fetchedContents : list FetchedContent) : nat :=
  foldl (fun sum c => sum + default 0 (wordCount c)) 0 fetchedContents.

(** The text before the loop. *)
Definition reportHeader (query : string) (found fetchedOk words : nat)
    (searchType : SearchType) : string :=
  "# Deep Search Results for: " +:+ dquote +:+ query +:+ dquote +:+ newline +:+ newline
  +:+ "**Search Type:** " +:+ searchTypeName searchType +:+ newline
  +:+ "**Results:** " +:+ natToString found +:+ " found, " +:+ natToString fetchedOk
  +:+ " pages fetched successfully" +:+ newline
  +:+ "**Total Content:** ~" +:+ toLocaleString words +:+ " words" +:+ newline +:+ newline
  +:+ "---" +:+ newline +:+ newline.

(** Number, title, URL and date of result [i]. *)
Definition resultHeading (i : nat) (search : SearchResult) : string :=
  "## " +:+ natToString (i + 1) +:+ ". " +:+ sr_title search +:+ newline
  +:+ "**URL:** " +:+ link search +:+ newline
  +:+ match date search with
      | Some d => if truthy d then "**Date:** " +:+ d +:+ newline else EmptyString
      | None => EmptyString
      end
  +:+ newline.

Definition contentSection (shown : string) : string :=
  "### Full Page Content:" +:+ newline +:+ newline +:+ shown +:+ newline +:+ newline.

Definition failureNotice (errorMsg : string) (search : SearchResult) : string :=
  "*Could not fetch content: " +:+ errorMsg +:+ "*" +:+ newline +:+ newline
  +:+ "**Search Snippet:** " +:+ snippet search +:+ newline +:+ newline.

(** The [if] / [else if] on [fetched], which is [None] when
    [fetchedContents[i]] is undefined. *)
Definition resultBody (search : SearchResult) (fetched : option FetchedContent)
    (maxContentPerPage : Z) : string :=
  match fetched with
  | Some f =>
      if success f && truthy (content f) then
        contentSection
          (if (Z.of_nat (String.length (content f)) >? maxContentPerPage)%Z
           then substring0 (content f) maxContentPerPage +:+ truncationMarker
           else content f)
      else
        match error f with
        | Some e => if truthy e then failureNotice e search else EmptyString
        | None => EmptyString
        end
  | None => EmptyString
  end.

Definition separator : string := "---" +:+ newline +:+ newline.

(** Everything one turn of the loop appends to [response]. *)
Definition resultBlock (i : nat) (search : SearchResult) (fetched : option FetchedContent)
    (maxContentPerPage : Z) : string :=
  resultHeading i search +:+ resultBody search fetched maxContentPerPage +:+ separator.

(** The [for] loop from index [i] on; [pending] are the search results
    from there. *)
Fixpoint formatLoop (fetchedContents : list FetchedContent) (maxContentPerPage : Z)
    (i : nat) (pending : list SearchResult) (response : string) : string :=
  match pending with
  | [] => response
  | search :: rest =>
      formatLoop fetchedContents maxContentPerPage (S i) rest
        (response +:+ resultBlock i search (fetchedContents !! i) maxContentPerPage)
  end.

(** What the loop appends for the results [pending], numbered from [i]. *)
Fixpoint resultBlocks (fetchedContents : list FetchedContent) (maxContentPerPage : Z)
    (i : nat) (pending : list SearchResult) : string :=
  match pending with
  | [] => EmptyString
  | search :: rest =>
      resultBlock i search (fetchedContents !! i) maxContentPerPage
      +:+ resultBlocks fetchedContents maxContentPerPage (S i) rest
  end.

Definition formatResponse (query : string) (searchResults : list SearchResult)
    (fetchedContents : list FetchedContent) (maxContentPerPage : Z)
    (searchType : SearchType) : string :=
  formatLoop fetchedContents maxContentPerPage 0 searchResults
    (reportHeader query (length searchResults) (successCount fetchedContents)
       (totalWords fetchedContents) searchType).

End Report.

(** ** The search query of [deep_search] *)

Definition siteClauses (op sep : string) (domains : string) : string :=
  join sep (map (fun d => op +:+ d) (map trim (split "," domains))).

(** The handler's construction of [searchQuery]; an absent parameter is
    [None], and an empty string is skipped like an absent one. *)
Definition buildSearchQuery (query : string) (include_domains exclude_domains : option string)
    : string :=
  let searchQuery := query in
  let searchQuery :=
    match include_domains with
    | Some domains =>
        if truthy domains then searchQuery +:+ " " +:+ siteClauses "site:" " OR " domains
        else searchQuery
    | None => searchQuery
    end in
  let searchQuery :=
    match exclude_domains with
    | Some domains =>
        if truthy domains then searchQuery +:+ " " +:+ siteClauses "-site:" " " domains
        else searchQuery
    | None => searchQuery
    end in
  searchQuery.

(** ** The word count in the spec's words *)

(** The spec counts the whitespace-separated tokens of the extracted
    text: its maximal runs of characters that are not whitespace. [piece]
    is the token being read. This definition follows the spec; the source
    counts [splitWhitespace]. *)
Fixpoint tokensFrom (piece s : string) : list string :=
  match s with
  | EmptyString => if truthy piece then [piece] else []
  | String c rest =>
      if isWhitespace c then
        if truthy piece then piece :: tokensFrom EmptyString rest
        else tokensFrom EmptyString rest
      else tokensFrom (piece +:+ String c EmptyString) rest
  end.

Definition whitespaceTokens (s : string) : list string := tokensFrom EmptyString s.

(** ** A locale for concrete reports *)

(** Commas between groups of three digits, over the digits in reverse;
    [k] digits of the current group are out. *)
Fixpoint groupDigits (k : nat) (reversed : list ascii) : list ascii :=
  match reversed with
  | [] => []
  | d :: more =>
      if k =? 3 then ","%char :: d :: groupDigits 1 more
      else d :: groupDigits (S k) more
  end.

(** [toLocaleString] in the en-US locale. *)
Definition toLocaleStringEnUS (n : nat) : string :=
  string_of_list_ascii (rev (groupDigits 0 (rev (list_ascii_of_string (natToString n))))).

(** ** Sample data for concrete reports *)

Definition sampleResult : SearchResult :=
  {| sr_title := "Example Domain"; link := "https://example.com/";
     snippet := "This domain is for use in illustrative examples.";
     position := 1; date := None |}.


(** ** googleSearch *)

(** An entry of [images] in the provider's answer. Its [title] and [link]
    are [img_title] and [img_link] here. *)
Record SerperImage : Type := {
  img_title : string;
  imageUrl : string;
  img_link : string
}.

(** [interface SerperResponse]: each of the three arrays may be absent.
    The fields [organic], [news] and [images] are [data_organic],
    [data_news] and [data_images] here, [news] and [images] being search
    types. *)
Record SerperResponse : Type := {
  data_organic : option (list SearchResult);
  data_news : option (list SearchResult);
  data_images : option (list SerperImage)
}.

(** The provider's HTTP response as far as [googleSearch] looks at it: the
    status with its text, and what awaiting [response.json()] gives. *)
Record SearchReply : Type := {
  reply_status : Z;
  statusText : string;
  json : completion SerperResponse
}.

Definition replyOk (reply : SearchReply) : bool :=
  (200 <=? reply_status reply)%Z && (reply_status reply <=? 299)%Z.

(** What the provider answers to a POST, by endpoint, API key, query and
    number of results; the [fetch] promise may also reject. *)
Definition Provider : Type := string -> string -> string -> Z -> completion SearchReply.

Definition searchEndpoint (searchType : SearchType) : string :=
  match searchType with
  | news => "https://google.serper.dev/news"
  | images => "https://google.serper.dev/images"
  | web => "https://google.serper.dev/search"
  end.

(** [data.images.map((img, idx) => ...)] *)
Definition imageResults (found : list SerperImage) : list SearchResult :=
  imap (fun idx img =>
          {| sr_title := img_title img; link := img_link img; snippet := imageUrl img;
             position := Z.of_nat idx + 1; date := None |}) found.

(** The value returned for the parsed answer [data]. *)
Definition searchResultsOf (searchType : SearchType) (data : SerperResponse)
    : list SearchResult :=
  match searchType, data_images data with
  | images, Some found => imageResults found
  | _, _ =>
      default [] (match searchType with
                  | news => data_news data
                  | _ => data_organic data
                  end)
  end.

(** [SERPER_API_KEY] is [apiKey], [None] when the variable is not set. *)
Definition googleSearch (apiKey : option string) (provider : Provider)
    (query : string) (numResults : Z) (searchType : SearchType) : Eff (list SearchResult) :=
  match apiKey with
  | Some key =>
      if truthy key then
        let endpoint := searchEndpoint searchType in
        do reply <- ([Request endpoint], provider endpoint key query numResults);
        if negb (replyOk reply) then
          throw (JsError ("Serper API error: " +:+ numberToString (reply_status reply)
                          +:+ " " +:+ statusText reply))
        else
          do data <- lift (json reply);
          ret (searchResultsOf searchType data)
      else throw (JsError "SERPER_API_KEY environment variable is required")
  | None => throw (JsError "SERPER_API_KEY environment variable is required")
  end.

(** ** formatResponse on the array as [fetchAllUrls] built it *)

Section SparseReport.

Variable toLocaleString : nat -> string.

(** [filter] and [reduce] skip the holes of an array, and reading a hole
    gives [undefined]. *)
Definition successCountSparse (fetchedContents : list (option FetchedContent)) : nat :=
  length (filter (fun slot => success <$> slot = Some true) fetchedContents).

Definition totalWordsSparse (fetchedContents : list (option FetchedContent)) : nat :=
  foldl (fun sum slot =>
           match slot with
           | Some c => sum + default 0 (wordCount c)
           | None => sum
           end) 0 fetchedContents.

Fixpoint formatLoopSparse (fetchedContents : list (option FetchedContent))
    (maxContentPerPage : Z) (i : nat) (pending : list SearchResult) (response : string)
    : string :=
  match pending with
  | [] => response
  | search :: rest =>
      formatLoopSparse fetchedContents maxContentPerPage (S i) rest
        (response +:+ resultBlock i search (mjoin (fetchedContents !! i)) maxContentPerPage)
  end.

Definition formatResponseSparse (query : string) (searchResults : list SearchResult)
    (fetchedContents : list (option FetchedContent)) (maxContentPerPage : Z)
    (searchType : SearchType) : string :=
  formatLoopSparse fetchedContents maxContentPerPage 0 searchResults
    (reportHeader toLocaleString query (length searchResults)
       (successCountSparse fetchedContents) (totalWordsSparse fetchedContents) searchType).

End SparseReport.

(** ** The tool handlers *)

(** What a handler returns: the text of its one content item, and whether
    [isError] is set. *)
Record ToolResult : Type := {
  toolText : string;
  isError : bool
}.

Section Handlers.

Variable toLocaleString : nat -> string.
Variable pageTitle : string -> completion string.
Variable readabilityText : string -> string -> completion (option string).
Variable cheerioContent : string -> completion string.

(** The environment of a call: the API key, the search provider, and the
    network of the pages, by index of the search result. *)
Variable apiKey : option string.
Variable provider : Provider.
Variable nets : nat -> Network.

(** Steps 2 and 3 of both handlers, for a search that gave [searchResults]. *)
Definition fetchAndFormat (query : string) (searchResults : list SearchResult)
    (max_content_per_page : Z) (searchType : SearchType) (fuel : nat) : option string :=
  let urls := map link searchResults in
  match fetchAllUrls pageTitle readabilityText cheerioContent nets urls 5 fuel with
  | Some fetchedContents =>
      Some (formatResponseSparse toLocaleString query searchResults fetchedContents
              max_content_per_page searchType)
  | None => None
  end.

(** The handler of [deep_search]. The [catch] clause takes what
    [googleSearch] throws; nothing after the search throws. [fuel] is the
    fuel of [fetchAllUrls]. *)
Definition deep_search (query : string) (num_results max_content_per_page : Z)
    (search_type : SearchType) (include_domains exclude_domains : option string)
    (fuel : nat) : option ToolResult :=
  let searchQuery := buildSearchQuery query include_domains exclude_domains in
  match outcome (googleSearch apiKey provider searchQuery num_results search_type) with
  | Normal searchResults =>
      if length searchResults =? 0 then
        Some {| toolText := "No search results found for: " +:+ dquote +:+ query +:+ dquote;
                isError := false |}
      else
        match fetchAndFormat query searchResults max_content_per_page search_type fuel with
        | Some response => Some {| toolText := response; isError := false |}
        | None => None
        end
  | Throw error =>
      Some {| toolText := "Error performing deep search: " +:+ errorMessage error;
              isError := true |}
  end.

(** The handler of [deep_search_news]. *)
Definition deep_search_news (query : string) (num_results max_content_per_page : Z)
    (fuel : nat) : option ToolResult :=
  match outcome (googleSearch apiKey provider query num_results news) with
  | Normal searchResults =>
      if length searchResults =? 0 then
        Some {| toolText := "No news results found for: " +:+ dquote +:+ query +:+ dquote;
                isError := false |}
      else
        match fetchAndFormat query searchResults max_content_per_page news fuel with
        | Some response => Some {| toolText := response; isError := false |}
        | None => None
        end
  | Throw error =>
      Some {| toolText := "Error performing news search: " +:+ errorMessage error;
              isError := true |}
  end.

End Handlers.

(** ** Notions for the statements about the retry loop *)

(** The trace of [n] requests, the first of them attempt number [from],
    with the pauses of the schedule between them. *)
Definition scheduleFrom (u : string) (baseDelay : Z) (from n : nat) : list event :=
  match n with
  | O => []
  | S m =>
      flat_map (fun k => [Request u; Sleep (baseDelay * 2 ^ Z.of_nat k)]) (seq from m)
      ++ [Request u]
  end.

Definition schedule (u : string) (baseDelay : Z) (n : nat) : list event :=
  scheduleFrom u baseDelay 0 n.

(** The error that an attempt leaves in [lastError] when it is of a kind
    the loop is written to retry: a response with a status outside 200-299
    that is no client error other than 429, or a rejection that is no
    timeout. *)
Definition retryableFailure (answer : completion Response) : option string :=
  match answer with
  | Normal response =>
      if ok response then None
      else if (400 <=? status response)%Z && (status response <? 500)%Z
              && negb (status response =? 429)%Z
      then None
      else Some (httpError response)
  | Throw reason =>
      if includes (errorMessage reason) "timeout" then None
      else Some (errorMessage reason)
  end.

Definition sumZ (l : list Z) : Z := foldr Z.add 0%Z l.

(** ** A sample environment for concrete calls *)

Definition sampleNews : SearchResult :=
  {| sr_title := "Example News"; link := "https://news.example.com/story";
     snippet := "Something happened."; position := 1; date := Some "2 hours ago" |}.

Definition sampleImage : SerperImage :=
  {| img_title := "A cat"; imageUrl := "https://img.example.com/cat.jpg";
     img_link := "https://example.com/cats" |}.

(** An answer of the provider with one web result, one news result and
    two images. *)
Definition sampleData : SerperResponse :=
  {| data_organic := Some [sampleResult]; data_news := Some [sampleNews];
     data_images := Some [sampleImage; sampleImage] |}.

(** An answer of the provider without any array. *)
Definition emptyData : SerperResponse :=
  {| data_organic := None; data_news := None; data_images := None |}.

Definition okReply (data : SerperResponse) : SearchReply :=
  {| reply_status := 200; statusText := "OK"; json := Normal data |}.

Definition forbiddenReply : SearchReply :=
  {| reply_status := 403; statusText := "Forbidden"; json := Throw NonError |}.

(** A provider that gives the same answer to every search. *)
Definition constantProvider (reply : SearchReply) : Provider :=
  fun _ _ _ _ => Normal reply.

(** Pages that are served at once, and pages that are never served. *)
Definition servedPages : nat -> Network :=
  fun _ _ => Normal {| status := 200; text := Normal "hello world" |}.

Definition unreachablePages : nat -> Network :=
  fun _ _ => Throw (JsError "fetch failed").

(** The page at index 1 is never served, the others are served at once. *)
Definition secondPageDown : nat -> Network :=
  fun i => if i =? 1 then unreachablePages i else servedPages i.

(** HTML libraries that find the title "A page" and take the whole body
    for the text. *)
Definition sampleTitle : string -> completion string := fun _ => Normal "A page".
Definition sampleReadability : string -> string -> completion (option string) :=
  fun html _ => Normal (Some html).
Definition sampleCheerio : string -> completion string := Normal.

(** The first page answers 404 at every attempt, the others cannot be
    reached. *)
Definition failingPages : nat -> Network :=
  fun i _ => if i =? 0 then Normal {| status := 404; text := Normal "not found" |}
             else Throw (JsError "fetch failed").

(** The records of two pages that failed, the first with status 404 and
    the second unreachable. *)
Definition failedBatch : list FetchedContent :=
  [ {| url := "https://example.com/"; title := EmptyString; content := EmptyString;
       success := false; error := Some "HTTP 404"; wordCount := None |};
    {| url := "https://news.example.com/story"; title := EmptyString;
       content := EmptyString; success := false; error := Some "fetch failed";
       wordCount := None |} ].

(** The page at index 1 is served with an empty body, the others with
    their text. *)
Definition secondPageEmpty : nat -> Network :=
  fun i => if i =? 1 then fun _ => Normal {| status := 200; text := Normal EmptyString |}
           else servedPages i.

(** The records of a page with text and of a page without. *)
Definition batchWithEmptyPage : list FetchedContent :=
  [ {| url := "https://example.com/"; title := "A page"; content := "hello world";
       success := true; error := None; wordCount := Some 2 |};
    {| url := "https://news.example.com/story"; title := "A page"; content := EmptyString;
       success := true; error := None; wordCount := Some 1 |} ].

(** * Properties *)

(** ** Strings *)

Lemma includes_first_char (s : string) (c : ascii) (pattern : string) :
  includes s (String c pattern) = true -> In c (list_ascii_of_string s).
Proof.
  induction s as [|a s IH]; simpl.
  - discriminate.
  - destruct (ascii_dec c a) as [->|_].
    + intros _. now left.
    + simpl. intros H. right. now apply IH.
Qed.

Lemma digits_have_no_t (d : Decimal.uint) :
  ~ In "t"%char (list_ascii_of_string (NilEmpty.string_of_uint d)).
Proof.
  induction d; simpl; [tauto|..]; intros [H|H];
    solve [discriminate H | now apply IHd].
Qed.

Lemma numberToString_has_no_t (z : Z) :
  ~ In "t"%char (list_ascii_of_string (numberToString z)).
Proof.
  unfold numberToString, NilZero.string_of_int.
  destruct (Z.to_int z) as [d|d]; unfold NilZero.string_of_uint.
  - destruct d; try apply digits_have_no_t. simpl. intros [H|[]]. discriminate H.
  - simpl. intros [H|H]; [discriminate H|]. revert H.
    destruct d; try apply digits_have_no_t. simpl. intros [H|[]]. discriminate H.
Qed.

(** The message built from a status never looks like a timeout. *)
Lemma httpError_is_no_timeout (response : Response) :
  includes (httpError response) "timeout" = false.
Proof.
  destruct (includes (httpError response) "timeout") eqn:E; [|reflexivity].
  apply includes_first_char in E. unfold httpError in E. simpl in E.
  destruct E as [H|[H|[H|[H|[H|H]]]]]; try discriminate H.
  now apply numberToString_has_no_t in H.
Qed.

(** ** Effects *)

Lemma bind_ret_l {A B} (a : A) (k : A -> Eff B) : bind (ret a) k = k a.
Proof. unfold bind, ret. now destruct (k a). Qed.

Lemma bind_ret_r {A} (m : Eff A) : bind m ret = m.
Proof. destruct m as [t [a|reason]]; cbn; [now rewrite app_nil_r | reflexivity]. Qed.

Lemma bind_assoc {A B C} (m : Eff A) (k : A -> Eff B) (h : B -> Eff C) :
  bind (bind m k) h = bind m (fun a => bind (k a) h).
Proof.
  destruct m as [t [a|reason]]; cbn; [|reflexivity].
  destruct (k a) as [t' [b|reason]]; cbn; [|reflexivity].
  destruct (h b) as [t'' r]. now rewrite app_assoc.
Qed.

(** An exception that nobody throws is not caught. *)
Lemma tryCatch_normal {A} (t : list event) (a : A) (handler : thrown -> Eff A) :
  tryCatch (t, Normal a) handler = (t, Normal a).
Proof. reflexivity. Qed.

Lemma requests_app (t t' : list event) : requests (t ++ t') = requests t + requests t'.
Proof. induction t as [|[u|ms] t IH]; cbn; [reflexivity | now rewrite IH | exact IH]. Qed.

Lemma pauses_app (t t' : list event) : pauses (t ++ t') = pauses t ++ pauses t'.
Proof. induction t as [|[u|ms] t IH]; cbn; [reflexivity | exact IH | now rewrite IH]. Qed.

(** In a run of requests that are each followed by a pause, there is one
    request and one pause per turn. *)
Lemma schedule_requests (u : string) (delay : nat -> Z) (turns : list nat) :
  requests (flat_map (fun k => [Request u; Sleep (delay k)]) turns) = length turns.
Proof. induction turns as [|k turns IH]; cbn; [reflexivity | now rewrite IH]. Qed.

Lemma schedule_pauses (u : string) (delay : nat -> Z) (turns : list nat) :
  pauses (flat_map (fun k => [Request u; Sleep (delay k)]) turns) = map delay turns.
Proof. induction turns as [|k turns IH]; cbn; [reflexivity | now rewrite IH]. Qed.

(** ** The retry loop *)

(** A response that is not [ok] sends the loop into its next turn, whatever
    its status: the [throw] for a client error is inside the [try] block,
    and the [catch] clause rethrows timeouts only. *)
Lemma attemptOnce_not_ok (net : Network) (u : string) (attempt : nat) (response : Response) :
  net attempt = Normal response ->
  ok response = false ->
  attemptOnce net u attempt = ([Request u], Normal (Continue (httpError response))).
Proof.
  intros Hnet Hok. unfold attemptOnce, fetch. rewrite Hnet. cbn.
  rewrite Hok.
  destruct ((400 <=? status response)%Z && (status response <? 500)%Z
            && negb (status response =? 429)%Z); cbn.
  - now rewrite httpError_is_no_timeout.
  - reflexivity.
Qed.

Lemma attemptOnce_ok (net : Network) (u : string) (attempt : nat) (response : Response) :
  net attempt = Normal response ->
  ok response = true ->
  attemptOnce net u attempt = ([Request u], Normal (Return response)).
Proof.
  intros Hnet Hok. unfold attemptOnce, fetch. rewrite Hnet. cbn. now rewrite Hok.
Qed.

Lemma attemptOnce_rejected (net : Network) (u : string) (attempt : nat) (reason : thrown) :
  net attempt = Throw reason ->
  attemptOnce net u attempt =
    ([Request u],
     if includes (errorMessage reason) "timeout"
     then Throw (JsError (errorMessage reason))
     else Normal (Continue (errorMessage reason))).
Proof.
  intros Hnet. unfold attemptOnce, fetch. rewrite Hnet. cbn.
  now destruct (includes (errorMessage reason) "timeout").
Qed.

(** Every turn issues exactly one request. *)
Lemma attemptOnce_trace (net : Network) (u : string) (attempt : nat) :
  trace (attemptOnce net u attempt) = [Request u].
Proof.
  destruct (net attempt) as [response|reason] eqn:Hnet.
  - destruct (ok response) eqn:Hok.
    + now rewrite (attemptOnce_ok _ _ _ _ Hnet Hok).
    + now rewrite (attemptOnce_not_ok _ _ _ _ Hnet Hok).
  - now rewrite (attemptOnce_rejected _ _ _ _ Hnet).
Qed.

Lemma backoff_pauses (maxRetries : nat) (baseDelay : Z) (attempt : nat) :
  S attempt < maxRetries ->
  backoff maxRetries baseDelay attempt = ([Sleep (baseDelay * 2 ^ Z.of_nat attempt)], Normal tt).
Proof.
  intros H. unfold backoff.
  destruct (Z.ltb_spec (Z.of_nat attempt) (Z.of_nat maxRetries - 1)); [reflexivity | lia].
Qed.

Lemma backoff_last (maxRetries : nat) (baseDelay : Z) (attempt : nat) :
  maxRetries <= S attempt ->
  backoff maxRetries baseDelay attempt = ([], Normal tt).
Proof.
  intros H. unfold backoff.
  destruct (Z.ltb_spec (Z.of_nat attempt) (Z.of_nat maxRetries - 1)); [lia | reflexivity].
Qed.

Lemma retryLoop_all_fail (net : Network) (u : string) (maxRetries : nat) (baseDelay : Z)
    (e : string) (remaining : nat) :
  forall (attempt : nat) (lastError : option string),
  (forall k, attempt <= k < attempt + remaining ->
     attemptOnce net u k = ([Request u], Normal (Continue e))) ->
  retryLoop net u maxRetries baseDelay remaining attempt lastError =
    (failedTurns u maxRetries baseDelay attempt remaining,
     Throw (JsError (match remaining with
                     | O => default "Max retries exceeded" lastError
                     | S _ => e
                     end))).
Proof.
  induction remaining as [|remaining IH]; intros attempt lastError Hfail.
  - reflexivity.
  - cbn [retryLoop]. rewrite Hfail by lia. unfold bind at 1.
    rewrite (IH (S attempt) (Some e)) by (intros k Hk; apply Hfail; lia).
    unfold failedTurns. cbn [seq flat_map].
    unfold backoff at 1 3.
    destruct (Z.of_nat attempt <? Z.of_nat maxRetries - 1)%Z; cbn;
      now destruct remaining.
Qed.

(** With at least one attempt allowed, the pauses are those of the
    exponential schedule, and there is none after the last attempt. *)
Lemma failedTurns_schedule (u : string) (maxRetries : nat) (baseDelay : Z) :
  1 <= maxRetries ->
  failedTurns u maxRetries baseDelay 0 maxRetries =
    flat_map (fun k => [Request u; Sleep (baseDelay * 2 ^ Z.of_nat k)]) (seq 0 (maxRetries - 1))
    ++ [Request u].
Proof.
  intros Hpos. unfold failedTurns.
  destruct maxRetries as [|n]; [lia|].
  replace (S n - 1) with n by lia. set (maxRetries := S n) in *.
  unfold maxRetries at 2.
  rewrite seq_S, flat_map_app. cbn [flat_map plus].
  rewrite backoff_last by lia. cbn. f_equal.
  assert (Hpre : forall from len, from + len < maxRetries ->
            flat_map (fun k => Request u :: trace (backoff maxRetries baseDelay k)) (seq from len)
            = flat_map (fun k => [Request u; Sleep (baseDelay * 2 ^ Z.of_nat k)]) (seq from len)).
  { intros from len. revert from. induction len as [|len IH]; intros from Hlt.
    - reflexivity.
    - cbn [seq flat_map]. rewrite backoff_pauses by lia. cbn.
      do 2 f_equal. apply IH. lia. }
  apply Hpre. unfold maxRetries. lia.
Qed.

Lemma retryLoop_stops_on_throw (net : Network) (u : string) (maxRetries : nat) (baseDelay : Z)
    (remaining attempt : nat) (lastError : option string) (reason : thrown) :
  attemptOnce net u attempt = ([Request u], Throw reason) ->
  retryLoop net u maxRetries baseDelay (S remaining) attempt lastError
  = ([Request u], Throw reason).
Proof. intros H. cbn [retryLoop]. now rewrite H. Qed.

Lemma retryLoop_stops_on_return (net : Network) (u : string) (maxRetries : nat) (baseDelay : Z)
    (remaining attempt : nat) (lastError : option string) (response : Response) :
  attemptOnce net u attempt = ([Request u], Normal (Return response)) ->
  retryLoop net u maxRetries baseDelay (S remaining) attempt lastError
  = ([Request u], Normal response).
Proof. intros H. cbn [retryLoop]. now rewrite H. Qed.

(** A server that gives the same status outside 200-299 to every request
    is asked [maxRetries] times, with the pauses of the schedule, and the
    call throws the error of that status. This holds for the statuses
    500-599 and 429, and for the client errors 400-499 as well. *)
Lemma fetchWithRetry_same_status (net : Network) (u : string) (maxRetries : nat)
    (baseDelay : Z) (s : Z) :
  1 <= maxRetries ->
  (s < 200 \/ 299 < s)%Z ->
  (forall attempt, attempt < maxRetries ->
     exists response, net attempt = Normal response /\ status response = s) ->
  fetchWithRetry net u maxRetries baseDelay =
    (flat_map (fun k => [Request u; Sleep (baseDelay * 2 ^ Z.of_nat k)]) (seq 0 (maxRetries - 1))
     ++ [Request u],
     Throw (JsError ("HTTP " +:+ numberToString s))).
Proof.
  intros Hpos Hs Hnet. unfold fetchWithRetry.
  rewrite (retryLoop_all_fail net u maxRetries baseDelay ("HTTP " +:+ numberToString s)).
  - rewrite failedTurns_schedule by exact Hpos.
    destruct maxRetries; [lia | reflexivity].
  - intros k Hk. destruct (Hnet k) as (response & Hk' & Hstatus); [lia|].
    rewrite (attemptOnce_not_ok net u k response Hk').
    + unfold httpError. now rewrite Hstatus.
    + unfold ok. rewrite Hstatus. lia.
Qed.

(** C2 (the code departs from the claim). A page that answers 404 to every
    request is requested three times by a call with the default
    arguments, with pauses of 1000 ms and 2000 ms in between, before the
    call fails: the claim's single attempt and immediate failure are not
    what the loop does. *)
Theorem fetchWithRetry_404_is_retried :
  fetchWithRetry (fun _ => Normal {| status := 404; text := Normal "Not Found" |})
    "https://example.com/missing" 3 1000
  = ([Request "https://example.com/missing"; Sleep 1000;
      Request "https://example.com/missing"; Sleep 2000;
      Request "https://example.com/missing"],
     Throw (JsError "HTTP 404")).
Proof.
  apply (fetchWithRetry_same_status _ _ 3 1000 404).
  - lia.
  - lia.
  - intros attempt _. eexists. split; reflexivity.
Qed.

(** C3. A server that answers 503 to every request is asked exactly
    [maxRetries] times. Before retry [k] (counted from 0) the loop pauses
    for [baseDelay * 2^k] milliseconds, and it does not pause after the
    last attempt. The call then fails with the error of the last status,
    HTTP 503. *)
Theorem fetchWithRetry_503_exhausts_retries (net : Network) (u : string)
    (maxRetries : nat) (baseDelay : Z) :
  1 <= maxRetries ->
  (forall attempt, attempt < maxRetries ->
     exists response, net attempt = Normal response /\ status response = 503%Z) ->
  fetchWithRetry net u maxRetries baseDelay =
    (flat_map (fun k => [Request u; Sleep (baseDelay * 2 ^ Z.of_nat k)]) (seq 0 (maxRetries - 1))
     ++ [Request u],
     Throw (JsError "HTTP 503")) /\
  requests (trace (fetchWithRetry net u maxRetries baseDelay)) = maxRetries /\
  pauses (trace (fetchWithRetry net u maxRetries baseDelay))
  = map (fun k => (baseDelay * 2 ^ Z.of_nat k)%Z) (seq 0 (maxRetries - 1)).
Proof.
  intros Hpos Hnet.
  rewrite (fetchWithRetry_same_status net u maxRetries baseDelay 503 Hpos); [|lia|exact Hnet].
  cbn [trace fst]. split; [reflexivity|]. split.
  - rewrite requests_app, schedule_requests, length_seq. cbn. lia.
  - rewrite pauses_app, schedule_pauses. cbn. now rewrite app_nil_r.
Qed.

(** The default call of [fetchUrl]: three requests, pauses of one and two
    seconds. *)
Lemma fetchWithRetry_503_exhausts_retries_witness :
  fetchWithRetry (fun _ => Normal {| status := 503; text := Normal "Service Unavailable" |})
    "https://example.com/busy" 3 1000
  = ([Request "https://example.com/busy"; Sleep 1000;
      Request "https://example.com/busy"; Sleep 2000;
      Request "https://example.com/busy"],
     Throw (JsError "HTTP 503")) /\
  requests (trace (fetchWithRetry
                     (fun _ => Normal {| status := 503; text := Normal "Service Unavailable" |})
                     "https://example.com/busy" 3 1000)) = 3 /\
  pauses (trace (fetchWithRetry
                   (fun _ => Normal {| status := 503; text := Normal "Service Unavailable" |})
                   "https://example.com/busy" 3 1000)) = [1000; 2000]%Z.
Proof.
  apply (fetchWithRetry_503_exhausts_retries _ "https://example.com/busy" 3 1000).
  - lia.
  - intros attempt _. eexists. split; reflexivity.
Defined.

(** C4. When the first request is aborted by the deadline, that is, when
    [fetch] rejects with an error whose message mentions a timeout, the
    call makes this one request only: no pause, no further request, and
    the error of the timeout is what the call throws. *)
Theorem fetchWithRetry_timeout_is_terminal (net : Network) (u : string)
    (maxRetries : nat) (baseDelay : Z) (message : string) :
  1 <= maxRetries ->
  net 0 = Throw (JsError message) ->
  includes message "timeout" = true ->
  fetchWithRetry net u maxRetries baseDelay = ([Request u], Throw (JsError message)).
Proof.
  intros Hpos Hnet Htimeout. unfold fetchWithRetry.
  destruct maxRetries as [|remaining]; [lia|].
  apply retryLoop_stops_on_throw.
  rewrite (attemptOnce_rejected net u 0 _ Hnet). cbn [errorMessage].
  now rewrite Htimeout.
Qed.

(** The rejection of [AbortSignal.timeout] in Node. *)
Lemma fetchWithRetry_timeout_is_terminal_witness :
  fetchWithRetry (fun _ => Throw (JsError "The operation was aborted due to timeout"))
    "https://example.com/slow" 3 1000
  = ([Request "https://example.com/slow"],
     Throw (JsError "The operation was aborted due to timeout")).
Proof.
  apply (fetchWithRetry_timeout_is_terminal _ "https://example.com/slow" 3 1000).
  - lia.
  - reflexivity.
  - reflexivity.
Defined.

(** A timeout at a later attempt ends the call at that attempt as well. *)
Lemma fetchWithRetry_timeout_after_failures (net : Network) (u : string)
    (maxRetries : nat) (baseDelay : Z) (e message : string) (n : nat) :
  n < maxRetries ->
  (forall k, k < n -> attemptOnce net u k = ([Request u], Normal (Continue e))) ->
  net n = Throw (JsError message) ->
  includes message "timeout" = true ->
  fetchWithRetry net u maxRetries baseDelay =
    (flat_map (fun k => [Request u; Sleep (baseDelay * 2 ^ Z.of_nat k)]) (seq 0 n)
     ++ [Request u],
     Throw (JsError message)).
Proof.
  intros Hn Hfail Hnet Htimeout. unfold fetchWithRetry.
  assert (Hgen : forall turns attempt lastError,
            attempt + turns = n ->
            retryLoop net u maxRetries baseDelay (turns + (maxRetries - n)) attempt lastError
            = (flat_map (fun k => [Request u; Sleep (baseDelay * 2 ^ Z.of_nat k)])
                 (seq attempt turns) ++ [Request u],
               Throw (JsError message))).
  { induction turns as [|turns IH]; intros attempt lastError Hsum.
    - replace (0 + (maxRetries - n)) with (S (maxRetries - n - 1)) by lia.
      apply retryLoop_stops_on_throw.
      rewrite (attemptOnce_rejected net u attempt (JsError message)) by (now replace attempt with n by lia).
      cbn [errorMessage]. now rewrite Htimeout.
    - cbn [Nat.add retryLoop]. rewrite Hfail by lia. unfold bind at 1.
      rewrite backoff_pauses by lia. unfold bind at 1.
      rewrite (IH (S attempt) (Some e)) by lia. reflexivity. }
  replace maxRetries with (n + (maxRetries - n)) at 2 by lia.
  now apply Hgen.
Qed.

(** ** One page *)

Section FetcherProperties.

Variable pageTitle : string -> completion string.
Variable readabilityText : string -> string -> completion (option string).
Variable cheerioContent : string -> completion string.

Local Abbreviation fetchUrl := (fetchUrl pageTitle readabilityText cheerioContent).
Local Abbreviation fetchAllUrls := (fetchAllUrls pageTitle readabilityText cheerioContent).
Local Abbreviation batchLoop := (batchLoop pageTitle readabilityText cheerioContent).
Local Abbreviation settleBatch := (settleBatch pageTitle readabilityText cheerioContent).
Local Abbreviation extractContentWithReadability :=
  (extractContentWithReadability readabilityText cheerioContent).

(** Whatever [fetchWithRetry] throws ends up in the [error] field of a
    failure record; the requests and pauses are those of the retry loop. *)
Lemma fetchUrl_failure (net : Network) (u : string) (maxLength : Z) (reason : thrown) :
  outcome (fetchWithRetry net u 3 1000) = Throw reason ->
  fetchUrl net u maxLength
  = (trace (fetchWithRetry net u 3 1000), Normal (failedFetch u (errorMessage reason))).
Proof.
  unfold fetchUrl, outcome, trace.
  destruct (fetchWithRetry net u 3 1000) as [t c]. cbn. intros ->. cbn.
  now rewrite app_nil_r.
Qed.

(** A page that was received, read and parsed gives a success record. *)
Lemma fetchUrl_success (net : Network) (u : string) (maxLength : Z)
    (response : Response) (html pageTitle' extracted : string) :
  outcome (fetchWithRetry net u 3 1000) = Normal response ->
  text response = Normal html ->
  pageTitle html = Normal pageTitle' ->
  extractContentWithReadability html u = Normal extracted ->
  outcome (fetchUrl net u maxLength)
  = Normal {| url := u; title := pageTitle';
              content := if (Z.of_nat (String.length extracted) >? maxLength)%Z
                         then substring0 extracted maxLength +:+ truncationMarker
                         else extracted;
              success := true; error := None;
              wordCount := Some (length (splitWhitespace extracted)) |}.
Proof.
  unfold fetchUrl, outcome.
  destruct (fetchWithRetry net u 3 1000) as [t c]. cbn. intros -> Htext Htitle Hextract.
  cbn. rewrite Htext. cbn. rewrite Htitle. cbn. now rewrite Hextract.
Qed.

(** The branch of a proof in which a stage of [fetchUrl] has thrown: the
    witness is the failure record. *)
Ltac failure_record := eexists; repeat split; eexists; reflexivity.

(** [fetchUrl] never throws, and its record is of one of two shapes. *)
Lemma fetchUrl_returns (net : Network) (u : string) (maxLength : Z) :
  exists f,
    outcome (fetchUrl net u maxLength) = Normal f /\ url f = u /\
    if success f
    then error f = None /\ is_Some (wordCount f)
    else exists errorMsg, f = failedFetch u errorMsg.
Proof.
  unfold fetchUrl, outcome.
  destruct (fetchWithRetry net u 3 1000) as [t [response|reason]]; cbn; [|failure_record].
  destruct (text response) as [html|reason]; cbn; [|failure_record].
  destruct (pageTitle html) as [pageTitle'|reason]; cbn; [|failure_record].
  destruct (extractContentWithReadability html u) as [extracted|reason]; cbn;
    [|failure_record].
  eexists. repeat split. cbn. now eexists.
Qed.

(** ** The batch *)

Lemma slice_lookup {A} (l : list A) (from width m : nat) :
  slice from (from + width) l !! m = if decide (m < width) then l !! (from + m) else None.
Proof.
  unfold slice. replace (from + width - from) with width by lia.
  destruct (decide (m < width)).
  - now rewrite lookup_take_lt, lookup_drop.
  - apply lookup_take_ge. lia.
Qed.

Lemma slice_length {A} (l : list A) (from width : nat) :
  length (slice from (from + width) l) = min width (length l - from).
Proof.
  unfold slice. replace (from + width - from) with width by lia.
  now rewrite length_take, length_drop.
Qed.

Lemma settleBatch_lookup (nets : nat -> Network) (batch : list string) :
  forall k m,
  settleBatch nets k batch !! m
  = (fun u => outcome (fetchUrl (nets (k + m)) u 100000)) <$> batch !! m.
Proof.
  induction batch as [|u batch IH]; intros k m; [reflexivity|].
  destruct m as [|m].
  - cbn. now rewrite Nat.add_0_r.
  - cbn. rewrite IH. now replace (S k + m) with (k + S m) by lia.
Qed.

Lemma settleBatch_length (nets : nat -> Network) (batch : list string) (k : nat) :
  length (settleBatch nets k batch) = length batch.
Proof. revert k. induction batch; intros k; cbn; [reflexivity | now rewrite IHbatch]. Qed.

Lemma arraySet_in_range {A} (i : nat) (v : A) (arr : list (option A)) :
  i < length arr -> arraySet i v arr = <[i := Some v]> arr.
Proof. intros H. unfold arraySet. now rewrite decide_True. Qed.

(** Storing a window fills its slots and leaves the others alone. *)
Lemma storeBatch_spec (urls : list string) (i : nat) (batchResults : list settled) :
  forall (idx : nat) (results : list (option FetchedContent)),
  i + idx + length batchResults <= length results ->
  length (storeBatch urls i idx batchResults results) = length results /\
  forall j,
    storeBatch urls i idx batchResults results !! j
    = match batchResults !! (j - (i + idx)) with
      | Some result =>
          if decide (i + idx <= j) then Some (Some (settledValue urls j result))
          else results !! j
      | None => results !! j
      end.
Proof.
  induction batchResults as [|result rest IH]; intros idx results Hfit.
  - split; [reflexivity|]. intros j. now rewrite lookup_nil.
  - cbn [length] in Hfit. cbn [storeBatch].
    rewrite arraySet_in_range by lia.
    destruct (IH (S idx) (<[i + idx := Some (settledValue urls (i + idx) result)]> results))
      as [Hlen Hlook]; [rewrite length_insert; lia|].
    split; [now rewrite Hlen, length_insert|].
    intros j. rewrite Hlook. clear Hlook Hlen IH.
    destruct (decide (j < i + idx)) as [Hlt|Hge].
    + replace (j - (i + S idx)) with 0 by lia. replace (j - (i + idx)) with 0 by lia.
      cbn [lookup list_lookup]. rewrite (decide_False (P := i + idx <= j)) by lia.
      destruct (rest !! 0);
        [rewrite decide_False by lia|]; apply list_lookup_insert_ne; lia.
    + destruct (decide (j = i + idx)) as [->|Hne].
      * replace (i + idx - (i + S idx)) with 0 by lia.
        replace (i + idx - (i + idx)) with 0 by lia.
        cbn [lookup list_lookup]. rewrite (decide_True (P := i + idx <= i + idx)) by lia.
        destruct (rest !! 0);
          [rewrite decide_False by lia|]; apply list_lookup_insert_eq; lia.
      * replace (j - (i + idx)) with (S (j - (i + S idx))) by lia.
        cbn [lookup list_lookup].
        destruct (rest !! (j - (i + S idx))).
        -- rewrite !decide_True by lia. reflexivity.
        -- apply list_lookup_insert_ne. lia.
Qed.

Lemma batchLoop_unfold (nets : nat -> Network) (urls : list string) (concurrency : nat)
    (fuel i : nat) (results : list (option FetchedContent)) :
  batchLoop nets urls concurrency fuel i results
  = if i <? length urls then
      match fuel with
      | O => None
      | S fuel' =>
          batchLoop nets urls concurrency fuel' (i + concurrency)
            (storeBatch urls i 0 (settleBatch nets i (slice i (i + concurrency) urls)) results)
      end
    else Some results.
Proof. destruct fuel; reflexivity. Qed.

(** With a positive step the loop ends within [fuel] windows, and then
    every slot holds what its own URL gave. *)
Lemma batchLoop_spec (nets : nat -> Network) (urls : list string) (concurrency : nat) :
  1 <= concurrency ->
  forall (fuel i : nat) (results : list (option FetchedContent)),
  length results = length urls ->
  (forall j u, j < i -> urls !! j = Some u ->
     results !! j = Some (Some (settledValue urls j (outcome (fetchUrl (nets j) u 100000))))) ->
  length urls <= i + fuel ->
  exists final,
    batchLoop nets urls concurrency fuel i results = Some final /\
    length final = length urls /\
    forall j u, urls !! j = Some u ->
      final !! j = Some (Some (settledValue urls j (outcome (fetchUrl (nets j) u 100000)))).
Proof.
  intros Hpos. induction fuel as [|fuel IH]; intros i results Hlen Hdone Hfuel;
    rewrite batchLoop_unfold; destruct (Nat.ltb_spec i (length urls)) as [Hin|Hout];
    try lia;
    try (exists results; repeat split; [exact Hlen|];
         intros j u Hj; apply Hdone; [apply lookup_lt_Some in Hj; lia | exact Hj]).
  set (batch := slice i (i + concurrency) urls).
  destruct (storeBatch_spec urls i (settleBatch nets i batch) 0 results) as [Hlen' Hlook].
  { rewrite settleBatch_length. unfold batch. rewrite slice_length. lia. }
  apply IH; [congruence | | lia].
  intros j u Hj Hu. rewrite Hlook, Nat.add_0_r.
  rewrite settleBatch_lookup. unfold batch. rewrite slice_lookup.
  destruct (decide (j < i)) as [Hold|Hnew].
  - replace (j - i) with 0 by lia.
    destruct (decide (0 < concurrency)); [|lia]. rewrite Nat.add_0_r.
    destruct (urls !! i); cbn; [rewrite decide_False by lia|]; now apply Hdone.
  - destruct (decide (j - i < concurrency)); [|lia].
    replace (i + (j - i)) with j by lia. rewrite Hu. cbn.
    now rewrite decide_True by lia.
Qed.

Lemma fetchAllUrls_unfold (nets : nat -> Network) (urls : list string) (concurrency fuel : nat) :
  fetchAllUrls nets urls concurrency fuel
  = batchLoop nets urls concurrency fuel 0 (replicate (length urls) None).
Proof. reflexivity. Qed.

(** With a positive step and fuel for one window per URL, the call
    returns, and slot [i] holds the record that [fetchUrl] returned for
    URL [i]. *)
Lemma fetchAllUrls_slots (nets : nat -> Network) (urls : list string) (concurrency fuel : nat) :
  1 <= concurrency ->
  length urls <= fuel ->
  exists results,
    fetchAllUrls nets urls concurrency fuel = Some results /\
    length results = length urls /\
    forall i u, urls !! i = Some u ->
      exists f, results !! i = Some (Some f) /\
                outcome (fetchUrl (nets i) u 100000) = Normal f.
Proof.
  intros Hpos Hfuel. rewrite fetchAllUrls_unfold.
  destruct (batchLoop_spec nets urls concurrency Hpos fuel 0 (replicate (length urls) None))
    as (final & Hrun & Hlen & Hslots).
  - apply length_replicate.
  - intros j u Hj. lia.
  - lia.
  - exists final. repeat split; [exact Hrun | exact Hlen |].
    intros i u Hu. destruct (fetchUrl_returns (nets i) u 100000) as (f & Hf & _).
    exists f. split; [|exact Hf]. rewrite (Hslots i u Hu), Hf. reflexivity.
Qed.

(** A step of 0 never leaves the first window. *)
Lemma fetchAllUrls_zero_concurrency (nets : nat -> Network) (urls : list string) (fuel : nat) :
  urls <> [] -> fetchAllUrls nets urls 0 fuel = None.
Proof.
  intros Hne. rewrite fetchAllUrls_unfold.
  assert (Hgen : forall results, batchLoop nets urls 0 fuel 0 results = None).
  { induction fuel as [|fuel IH]; intros results; rewrite batchLoop_unfold;
      destruct (Nat.ltb_spec 0 (length urls)) as [_|Hempty];
      try (destruct urls; [congruence | cbn in Hempty; lia]).
    - reflexivity.
    - apply IH. }
  apply Hgen.
Qed.

(** C1. For every list of URLs, the empty one included, and every window
    size of at least 1, the call returns an array with one slot per URL;
    no slot is a hole, and the record in slot [i] carries URL [i], whether
    its fetch succeeded or failed. *)
Theorem fetchAllUrls_aligned (nets : nat -> Network) (urls : list string)
    (concurrency fuel : nat) :
  1 <= concurrency ->
  length urls <= fuel ->
  exists results,
    fetchAllUrls nets urls concurrency fuel = Some results /\
    length results = length urls /\
    forall i u, urls !! i = Some u ->
      exists f, results !! i = Some (Some f) /\ url f = u.
Proof.
  intros Hpos Hfuel.
  destruct (fetchAllUrls_slots nets urls concurrency fuel Hpos Hfuel)
    as (results & Hrun & Hlen & Hslots).
  exists results. repeat split; [exact Hrun | exact Hlen |].
  intros i u Hu. destruct (Hslots i u Hu) as (f & Hslot & Hf).
  exists f. split; [exact Hslot|].
  destruct (fetchUrl_returns (nets i) u 100000) as (f' & Hf' & Hurl & _).
  congruence.
Qed.

(** C5. The call returns for every behaviour of the network. Slot [i] is
    what [fetchUrl] returned for URL [i] under the answers to its own
    requests, so it is the same under any other behaviour of the network
    that agrees on these. When the retry loop of URL [i] throws (a network
    error, a status that is not retried, a timeout, or the last of the
    retries), the slot is the failure record: no title, no content,
    [success = false], and as its error the message of the [Error] that
    was thrown, or "Unknown error" for a thrown value that is no
    [Error]. *)
Theorem fetchAllUrls_isolates_failures (nets : nat -> Network) (urls : list string)
    (concurrency fuel : nat) :
  1 <= concurrency ->
  length urls <= fuel ->
  exists results,
    fetchAllUrls nets urls concurrency fuel = Some results /\
    (forall i u, urls !! i = Some u ->
       exists f,
         results !! i = Some (Some f) /\
         outcome (fetchUrl (nets i) u 100000) = Normal f /\
         forall reason,
           outcome (fetchWithRetry (nets i) u 3 1000) = Throw reason ->
           f = {| url := u; title := EmptyString; content := EmptyString;
                  success := false;
                  error := Some (match reason with
                                 | JsError message => message
                                 | NonError => "Unknown error"
                                 end);
                  wordCount := None |}) /\
    (forall nets' i,
       i < length urls ->
       nets' i = nets i ->
       exists results',
         fetchAllUrls nets' urls concurrency fuel = Some results' /\
         results' !! i = results !! i).
Proof.
  intros Hpos Hfuel.
  destruct (fetchAllUrls_slots nets urls concurrency fuel Hpos Hfuel)
    as (results & Hrun & Hlen & Hslots).
  exists results. split; [exact Hrun|]. split.
  - intros i u Hu. destruct (Hslots i u Hu) as (f & Hslot & Hf).
    exists f. repeat split; [exact Hslot | exact Hf |].
    intros reason Hthrow.
    pose proof (fetchUrl_failure (nets i) u 100000 reason Hthrow) as Hfail.
    unfold outcome in Hf. rewrite Hfail in Hf. cbn in Hf. now inversion Hf.
  - intros nets' i Hi Hsame.
    destruct (fetchAllUrls_slots nets' urls concurrency fuel Hpos Hfuel)
      as (results' & Hrun' & _ & Hslots').
    exists results'. split; [exact Hrun'|].
    destruct (lookup_lt_is_Some_2 urls i Hi) as [u Hu].
    destruct (Hslots i u Hu) as (f & -> & Hf).
    destruct (Hslots' i u Hu) as (f' & -> & Hf').
    rewrite Hsame in Hf'. congruence.
Qed.

End FetcherProperties.

(** Three pages in windows of two: the second is refused by its server on
    every attempt, the others are served. *)
Lemma fetchAllUrls_aligned_witness :
  exists results,
    fetchAllUrls (fun _ => Normal "A page") (fun html _ => Normal (Some html)) Normal
      (fun i _ => Normal {| status := if i =? 1 then 500%Z else 200%Z;
                            text := Normal "some text" |})
      ["https://a.example"; "https://b.example"; "https://c.example"] 2 3
    = Some results /\
    length results = 3 /\
    forall i u,
      ["https://a.example"; "https://b.example"; "https://c.example"] !! i = Some u ->
      exists f, results !! i = Some (Some f) /\ url f = u.
Proof.
  apply (fetchAllUrls_aligned (fun _ => Normal "A page") (fun html _ => Normal (Some html))
           Normal _ ["https://a.example"; "https://b.example"; "https://c.example"] 2 3).
  - lia.
  - cbn. lia.
Defined.

(** Three pages in windows of two. The second page, in the first window,
    meets a connection error at every attempt; the first page shares its
    window, the third is in the next one. *)
Lemma fetchAllUrls_isolates_failures_witness :
  exists results,
    fetchAllUrls sampleTitle sampleReadability sampleCheerio secondPageDown
      ["https://a.example"; "https://b.example"; "https://c.example"] 2 3
    = Some results /\
    (forall i u,
       ["https://a.example"; "https://b.example"; "https://c.example"] !! i = Some u ->
       exists f,
         results !! i = Some (Some f) /\
         outcome (fetchUrl sampleTitle sampleReadability sampleCheerio
                    (secondPageDown i) u 100000) = Normal f /\
         forall reason,
           outcome (fetchWithRetry (secondPageDown i) u 3 1000) = Throw reason ->
           f = {| url := u; title := EmptyString; content := EmptyString;
                  success := false;
                  error := Some (match reason with
                                 | JsError message => message
                                 | NonError => "Unknown error"
                                 end);
                  wordCount := None |}) /\
    (forall nets' i,
       i < 3 ->
       nets' i = secondPageDown i ->
       exists results',
         fetchAllUrls sampleTitle sampleReadability sampleCheerio nets'
           ["https://a.example"; "https://b.example"; "https://c.example"] 2 3
         = Some results' /\
         results' !! i = results !! i).
Proof.
  apply (fetchAllUrls_isolates_failures sampleTitle sampleReadability sampleCheerio
           secondPageDown
           ["https://a.example"; "https://b.example"; "https://c.example"] 2 3).
  - lia.
  - cbn. lia.
Defined.

(** The array of that call: the failure of the second page is in slot 1
    with its message, and the slots of the two other pages are what they
    are when the second page is served as well. *)
Lemma fetchAllUrls_second_page_down :
  fetchAllUrls sampleTitle sampleReadability sampleCheerio secondPageDown
    ["https://a.example"; "https://b.example"; "https://c.example"] 2 3
  = Some [Some {| url := "https://a.example"; title := "A page"; content := "hello world";
                  success := true; error := None; wordCount := Some 2 |};
          Some {| url := "https://b.example"; title := EmptyString; content := EmptyString;
                  success := false; error := Some "fetch failed"; wordCount := None |};
          Some {| url := "https://c.example"; title := "A page"; content := "hello world";
                  success := true; error := None; wordCount := Some 2 |}]
  /\ fetchAllUrls sampleTitle sampleReadability sampleCheerio servedPages
       ["https://a.example"; "https://b.example"; "https://c.example"] 2 3
     = Some [Some {| url := "https://a.example"; title := "A page"; content := "hello world";
                     success := true; error := None; wordCount := Some 2 |};
             Some {| url := "https://b.example"; title := "A page"; content := "hello world";
                     success := true; error := None; wordCount := Some 2 |};
             Some {| url := "https://c.example"; title := "A page"; content := "hello world";
                     success := true; error := None; wordCount := Some 2 |}].
Proof. split; vm_compute; reflexivity. Qed.

(** ** The word count *)

(** Dropping the empty pieces of the split leaves the tokens. *)
Lemma splitRuns_tokens (s : string) :
  forall (inRun : bool) (piece : string),
  (inRun = true -> piece = EmptyString) ->
  filter (fun p => truthy p = true) (splitRuns inRun piece s) = tokensFrom piece s.
Proof.
  induction s as [|c rest IH]; intros inRun piece Hrun; cbn [splitRuns tokensFrom].
  - rewrite filter_cons, filter_nil. destruct (truthy piece); reflexivity.
  - destruct (isWhitespace c).
    + destruct inRun.
      * rewrite (Hrun eq_refl). cbn [truthy]. now apply IH.
      * rewrite filter_cons, (IH true EmptyString) by reflexivity.
        destruct (truthy piece); reflexivity.
    + apply IH. discriminate.
Qed.

Lemma trimEnd_cons (c : ascii) (rest : string) :
  trimEnd (String c rest)
  = match trimEnd rest with
    | EmptyString => if isWhitespace c then EmptyString else String c EmptyString
    | kept => String c kept
    end.
Proof. reflexivity. Qed.

Lemma trimEnd_idempotent (s : string) : trimEnd (trimEnd s) = trimEnd s.
Proof.
  induction s as [|c rest IH]; [reflexivity|]. rewrite trimEnd_cons.
  destruct (trimEnd rest) as [|k kept] eqn:Hkept.
  - destruct (isWhitespace c) eqn:Hc; [reflexivity|]. cbn. now rewrite Hc.
  - rewrite trimEnd_cons. now rewrite IH.
Qed.

(** A text without whitespace at its end: what is left of it after a
    character is such a text again. *)
Lemma trimEnd_fixed_tail (c : ascii) (rest : string) :
  trimEnd (String c rest) = String c rest ->
  trimEnd rest = rest /\ (rest = EmptyString -> isWhitespace c = false).
Proof.
  rewrite trimEnd_cons. destruct (trimEnd rest) as [|k kept] eqn:Hkept.
  - destruct (isWhitespace c); [discriminate|]. intros [= <-]. now split.
  - intros [= <-]. split; [reflexivity | discriminate].
Qed.

Lemma append_truthy (piece : string) (c : ascii) :
  truthy (piece +:+ String c EmptyString) = true.
Proof. destruct piece; reflexivity. Qed.

(** Between the words of such a text no piece of the split is empty. *)
Lemma splitRuns_no_empty_piece (s : string) :
  forall (inRun : bool) (piece : string),
  (if inRun then True else truthy piece = true) ->
  trimEnd s = s ->
  (s = EmptyString -> inRun = false) ->
  Forall (fun p => truthy p = true) (splitRuns inRun piece s).
Proof.
  induction s as [|c rest IH]; intros inRun piece Hstate Hfixed Hend; cbn [splitRuns].
  - rewrite (Hend eq_refl) in Hstate. now repeat constructor.
  - apply trimEnd_fixed_tail in Hfixed as [Hrest Hlast].
    destruct (isWhitespace c) eqn:Hc.
    + assert (Hmore : rest = EmptyString -> true = false)
        by (intros ->; now apply Hlast).
      destruct inRun.
      * apply IH; [exact I | exact Hrest |].
        intros Hr. now apply Hmore in Hr.
      * constructor; [exact Hstate|].
        apply IH; [exact I | exact Hrest |].
        intros Hr. now apply Hmore in Hr.
    + apply IH; [apply append_truthy | exact Hrest | reflexivity].
Qed.

Lemma trimStart_starts_with_word (s : string) (c : ascii) (rest : string) :
  trimStart s = String c rest -> isWhitespace c = false.
Proof.
  induction s as [|a s IH]; cbn [trimStart]; [discriminate|].
  destruct (isWhitespace a) eqn:Ha; [exact IH|]. now intros [= <- _].
Qed.

Lemma trimEnd_keeps_first (s : string) (c : ascii) (rest : string) :
  trimEnd s = String c rest -> exists rest', s = String c rest'.
Proof.
  destruct s as [|a s]; [discriminate|]. rewrite trimEnd_cons.
  destruct (trimEnd s); [destruct (isWhitespace a); [discriminate|]|];
    intros [= <- _]; now eexists.
Qed.

Lemma filter_all {A} (P : A -> Prop) `{forall x, Decision (P x)} (l : list A) :
  Forall P l -> filter P l = l.
Proof.
  induction 1 as [|x l Hx _ IH]; [reflexivity|].
  now rewrite filter_cons_True, IH.
Qed.

(** On a trimmed text that is not empty, the split of the source and the
    tokens of the spec are the same list. *)
Lemma splitWhitespace_trimmed (s : string) :
  trim s <> EmptyString ->
  splitWhitespace (trim s) = whitespaceTokens (trim s).
Proof.
  intros Hne. unfold whitespaceTokens, splitWhitespace.
  rewrite <- (splitRuns_tokens (trim s) false EmptyString) by discriminate.
  symmetry. apply filter_all.
  assert (Hfixed : trimEnd (trim s) = trim s) by apply trimEnd_idempotent.
  destruct (trim s) as [|c rest] eqn:Htrim; [congruence|].
  apply trimEnd_keeps_first in Htrim as [rest' Hstart].
  apply trimStart_starts_with_word in Hstart.
  apply trimEnd_fixed_tail in Hfixed as [Hrest _].
  cbn [splitRuns]. rewrite Hstart.
  apply splitRuns_no_empty_piece; [reflexivity | exact Hrest | reflexivity].
Qed.

(** The two counts of the empty text. *)
Lemma splitWhitespace_empty :
  length (splitWhitespace EmptyString) = 1 /\ length (whitespaceTokens EmptyString) = 0.
Proof. split; reflexivity. Qed.

(** The second replacement of the clean-up finds nothing to replace: the
    first one has left no newline. *)
Lemma collapseRuns_no_newline (s : string) (inRun : bool) :
  Forall (fun c => isNewline c = false) (list_ascii_of_string (collapseRuns inRun s)).
Proof.
  revert inRun. induction s as [|c rest IH]; intros inRun; cbn; [constructor|].
  destruct (isWhitespace c) eqn:Hc.
  - destruct inRun; [apply IH|]. cbn. constructor; [reflexivity | apply IH].
  - cbn. constructor; [|apply IH].
    unfold isNewline. unfold isWhitespace in Hc.
    destruct (Nat.eqb_spec (nat_of_ascii c) 10) as [E|]; [|reflexivity].
    rewrite E in Hc. discriminate Hc.
Qed.

Lemma collapseBlankLines_no_newline (s : string) :
  Forall (fun c => isNewline c = false) (list_ascii_of_string s) ->
  collapseBlankLines s = s.
Proof.
  unfold collapseBlankLines. induction s as [|c rest IH]; [reflexivity|].
  cbn [list_ascii_of_string collapseBlankLinesFrom]. intros H.
  apply Forall_cons in H as [Hc Hrest]. rewrite Hc. f_equal. now apply IH.
Qed.

Lemma cleanText_unfold (s : string) : cleanText s = trim (collapseWhitespace s).
Proof.
  unfold cleanText. now rewrite collapseBlankLines_no_newline by apply collapseRuns_no_newline.
Qed.

(** The extractors only return cleaned text. *)
Lemma cleanText_count (raw : string) :
  if truthy (cleanText raw)
  then length (splitWhitespace (cleanText raw)) = length (whitespaceTokens (cleanText raw))
  else length (splitWhitespace (cleanText raw)) = 1
       /\ length (whitespaceTokens (cleanText raw)) = 0.
Proof.
  destruct (cleanText raw) as [|c rest] eqn:Hclean; cbn [truthy].
  - apply splitWhitespace_empty.
  - rewrite <- Hclean. unfold cleanText. rewrite splitWhitespace_trimmed; [reflexivity|].
    fold (cleanText raw). rewrite Hclean. discriminate.
Qed.

Section WordCount.

Variable pageTitle : string -> completion string.
Variable readabilityText : string -> string -> completion (option string).
Variable cheerioContent : string -> completion string.

Local Abbreviation fetchUrl := (fetchUrl pageTitle readabilityText cheerioContent).
Local Abbreviation extractContentWithCheerio := (extractContentWithCheerio cheerioContent).
Local Abbreviation extractContentWithReadability :=
  (extractContentWithReadability readabilityText cheerioContent).

Lemma extracted_is_cleaned (html u extracted : string) :
  extractContentWithReadability html u = Normal extracted ->
  exists raw, extracted = cleanText raw.
Proof.
  assert (Hcheerio : extractContentWithCheerio html = Normal extracted ->
                     exists raw, extracted = cleanText raw).
  { unfold extractContentWithCheerio.
    destruct (cheerioContent html); intros [= <-]; now eexists. }
  unfold extractContentWithReadability.
  destruct (readabilityText html u) as [[textContent|]|]; try exact Hcheerio.
  destruct (truthy textContent); [|exact Hcheerio].
  intros [= <-]. now eexists.
Qed.

(** Two closing steps for the case analysis on the stages of [fetchUrl]:
    a record of a failed stage is no success, and two runs that fail at
    the same stage give the same record. *)
Ltac no_success := intros [= <-]; discriminate.
Ltac same_record := intros [= <-] [= <-]; now split.

(** The record of a page that was fetched: the words are counted on the
    text as extracted, the limit applies to the content only. *)
Lemma fetchUrl_success_record (net : Network) (u : string) (maxLength : Z) (f : FetchedContent) :
  outcome (fetchUrl net u maxLength) = Normal f ->
  success f = true ->
  exists html raw,
    extractContentWithReadability html u = Normal (cleanText raw) /\
    wordCount f = Some (length (splitWhitespace (cleanText raw))) /\
    content f = if (Z.of_nat (String.length (cleanText raw)) >? maxLength)%Z
                then substring0 (cleanText raw) maxLength +:+ truncationMarker
                else cleanText raw.
Proof.
  unfold fetchUrl, outcome.
  destruct (fetchWithRetry net u 3 1000) as [t [response|reason]]; cbn; [|no_success].
  destruct (text response) as [html|reason]; cbn; [|no_success].
  destruct (pageTitle html) as [pageTitle'|reason]; cbn; [|no_success].
  destruct (extractContentWithReadability html u) as [extracted|reason] eqn:Hextract; cbn;
    [|no_success].
  intros [= <-] _. cbn.
  destruct (extracted_is_cleaned html u extracted Hextract) as [raw ->].
  exists html, raw. now repeat split.
Qed.

(** The limit has no part in the count. *)
Lemma fetchUrl_wordCount_ignores_maxLength (net : Network) (u : string)
    (maxLength maxLength' : Z) (f f' : FetchedContent) :
  outcome (fetchUrl net u maxLength) = Normal f ->
  outcome (fetchUrl net u maxLength') = Normal f' ->
  wordCount f = wordCount f' /\ success f = success f'.
Proof.
  unfold fetchUrl, outcome.
  destruct (fetchWithRetry net u 3 1000) as [t [response|reason]]; cbn; [|same_record].
  destruct (text response) as [html|reason]; cbn; [|same_record].
  destruct (pageTitle html) as [pageTitle'|reason]; cbn; [|same_record].
  destruct (extractContentWithReadability html u) as [extracted|reason]; cbn; same_record.
Qed.

(** Whenever the extracted text is not empty, the recorded count is the
    number of its whitespace-separated tokens. *)
Lemma fetchUrl_wordCount_tokens (net : Network) (u : string) (maxLength : Z)
    (f : FetchedContent) :
  outcome (fetchUrl net u maxLength) = Normal f ->
  success f = true ->
  exists extracted,
    wordCount f = Some (length (splitWhitespace extracted)) /\
    if truthy extracted
    then wordCount f = Some (length (whitespaceTokens extracted))
    else wordCount f = Some 1 /\ length (whitespaceTokens extracted) = 0.
Proof.
  intros Hf Hok.
  destruct (fetchUrl_success_record net u maxLength f Hf Hok) as (html & raw & _ & Hcount & _).
  exists (cleanText raw). split; [exact Hcount|].
  pose proof (cleanText_count raw) as Hclean.
  destruct (truthy (cleanText raw)).
  - now rewrite Hcount, Hclean.
  - destruct Hclean as [Hone Hzero]. now rewrite Hcount, Hone.
Qed.

End WordCount.

(** C6 (the code departs from the claim). A page that is served with
    status 200 and holds no text, here an empty body in which Readability
    finds no article, is recorded with a word count of 1, whereas its
    extracted text, the empty string, has no whitespace-separated token at
    all. The count is taken before the cut to [maxLength], as the claim
    says (lemma [fetchUrl_wordCount_ignores_maxLength]), and it is the
    number of tokens for every text that is not empty (lemma
    [fetchUrl_wordCount_tokens]). *)
Theorem fetchUrl_empty_text_counts_one_word (u : string) :
  outcome (fetchUrl (fun _ => Normal EmptyString) (fun _ _ => Normal None)
             (fun _ => Normal EmptyString)
             (fun _ => Normal {| status := 200; text := Normal "<html><body></body></html>" |})
             u 100000)
  = Normal {| url := u; title := EmptyString; content := EmptyString;
              success := true; error := None; wordCount := Some 1 |}
  /\ length (whitespaceTokens EmptyString) = 0.
Proof.
  split; [|reflexivity].
  rewrite (fetchUrl_success _ _ _ _ u 100000
             {| status := 200; text := Normal "<html><body></body></html>" |}
             "<html><body></body></html>" EmptyString EmptyString); reflexivity.
Qed.

(** ** The report *)

Lemma append_assoc (a b c : string) : (a +:+ b) +:+ c = a +:+ b +:+ c.
Proof.
  induction a as [|x a IH]; [reflexivity|].
  change (String x ((a +:+ b) +:+ c) = String x (a +:+ b +:+ c)). now rewrite IH.
Qed.

Lemma append_empty_r (a : string) : a +:+ EmptyString = a.
Proof.
  induction a as [|x a IH]; [reflexivity|].
  change (String x (a +:+ EmptyString) = String x a). now rewrite IH.
Qed.

Lemma substring0_length (s : string) (n : Z) :
  String.length (substring0 s n) = min (Z.to_nat n) (String.length s).
Proof.
  unfold substring0. generalize (Z.to_nat n) as k. clear n.
  induction s as [|c s IH]; intros [|k]; cbn; try reflexivity.
  now rewrite IH.
Qed.

Section ReportProperties.

Variable toLocaleString : nat -> string.

Local Abbreviation formatResponse := (formatResponse toLocaleString).
Local Abbreviation reportHeader := (reportHeader toLocaleString).

Lemma formatLoop_appends (fetchedContents : list FetchedContent) (maxContentPerPage : Z)
    (pending : list SearchResult) :
  forall (i : nat) (response : string),
  formatLoop fetchedContents maxContentPerPage i pending response
  = response +:+ resultBlocks fetchedContents maxContentPerPage i pending.
Proof.
  induction pending as [|search rest IH]; intros i response; cbn [formatLoop resultBlocks].
  - now rewrite append_empty_r.
  - now rewrite IH, append_assoc.
Qed.

(** The blocks before result [k], its own block, and the blocks after. *)
Lemma resultBlocks_split (fetchedContents : list FetchedContent) (maxContentPerPage : Z)
    (pending : list SearchResult) :
  forall (i k : nat) (search : SearchResult),
  pending !! k = Some search ->
  resultBlocks fetchedContents maxContentPerPage i pending
  = resultBlocks fetchedContents maxContentPerPage i (take k pending)
    +:+ resultBlock (i + k) search (fetchedContents !! (i + k)) maxContentPerPage
    +:+ resultBlocks fetchedContents maxContentPerPage (i + S k) (drop (S k) pending).
Proof.
  induction pending as [|first rest IH]; intros i k search Hk; [discriminate|].
  destruct k as [|k].
  - injection Hk as ->. cbn. now rewrite !Nat.add_0_r, Nat.add_1_r.
  - cbn in Hk. cbn [firstn skipn resultBlocks].
    rewrite (IH (S i) k search Hk), append_assoc.
    replace (S i + k) with (i + S k) by lia.
    now replace (S i + S k) with (i + S (S k)) by lia.
Qed.

(** The report around result [i]. *)
Lemma formatResponse_result (query : string) (searchResults : list SearchResult)
    (fetchedContents : list FetchedContent) (maxContentPerPage : Z) (searchType : SearchType)
    (i : nat) (search : SearchResult) :
  searchResults !! i = Some search ->
  formatResponse query searchResults fetchedContents maxContentPerPage searchType
  = reportHeader query (length searchResults) (successCount fetchedContents)
      (totalWords fetchedContents) searchType
    +:+ resultBlocks fetchedContents maxContentPerPage 0 (take i searchResults)
    +:+ resultHeading i search
    +:+ resultBody search (fetchedContents !! i) maxContentPerPage
    +:+ separator
    +:+ resultBlocks fetchedContents maxContentPerPage (S i) (drop (S i) searchResults).
Proof.
  intros Hi. unfold formatResponse. rewrite formatLoop_appends.
  rewrite (resultBlocks_split _ _ _ 0 i search Hi). cbn [Nat.add].
  unfold resultBlock. now rewrite !append_assoc.
Qed.




(** A result whose outcome has [success = true], an empty content and no
    error message, or an empty one, gets its heading and the separator and
    nothing between them. *)
Lemma formatResponse_bare_entry (query : string) (searchResults : list SearchResult)
    (fetchedContents : list FetchedContent) (maxContentPerPage : Z) (searchType : SearchType)
    (i : nat) (search : SearchResult) (f : FetchedContent) :
  searchResults !! i = Some search ->
  fetchedContents !! i = Some f ->
  success f = true ->
  content f = EmptyString ->
  (forall e, error f = Some e -> e = EmptyString) ->
  formatResponse query searchResults fetchedContents maxContentPerPage searchType
  = reportHeader query (length searchResults) (successCount fetchedContents)
      (totalWords fetchedContents) searchType
    +:+ resultBlocks fetchedContents maxContentPerPage 0 (take i searchResults)
    +:+ resultHeading i search
    +:+ separator
    +:+ resultBlocks fetchedContents maxContentPerPage (S i) (drop (S i) searchResults).
Proof.
  intros Hsearch Hfetched Hok Hcontent Herror.
  rewrite (formatResponse_result _ _ _ _ _ i search Hsearch).
  rewrite Hfetched. cbn [resultBody]. rewrite Hok, Hcontent. cbn [truthy andb].
  destruct (error f) as [e|]; [rewrite (Herror e eq_refl)|]; reflexivity.
Qed.

End ReportProperties.



(** The report of that batch in full: a header that counts 0 pages, and
    under each result its notice and its snippet. *)
Lemma formatResponse_failedBatch_report :
  formatResponse toLocaleStringEnUS "q" [sampleResult; sampleNews] failedBatch 50000 web
  = "# Deep Search Results for: " +:+ dquote +:+ "q" +:+ dquote +:+ newline +:+ newline
    +:+ "**Search Type:** web" +:+ newline
    +:+ "**Results:** 2 found, 0 pages fetched successfully" +:+ newline
    +:+ "**Total Content:** ~0 words" +:+ newline +:+ newline
    +:+ "---" +:+ newline +:+ newline
    +:+ "## 1. Example Domain" +:+ newline
    +:+ "**URL:** https://example.com/" +:+ newline +:+ newline
    +:+ "*Could not fetch content: HTTP 404*" +:+ newline +:+ newline
    +:+ "**Search Snippet:** This domain is for use in illustrative examples."
    +:+ newline +:+ newline
    +:+ "---" +:+ newline +:+ newline
    +:+ "## 2. Example News" +:+ newline
    +:+ "**URL:** https://news.example.com/story" +:+ newline
    +:+ "**Date:** 2 hours ago" +:+ newline +:+ newline
    +:+ "*Could not fetch content: fetch failed*" +:+ newline +:+ newline
    +:+ "**Search Snippet:** Something happened." +:+ newline +:+ newline
    +:+ "---" +:+ newline +:+ newline.
Proof. vm_compute. reflexivity. Qed.

(** The records of the fetcher never pair [success = true] with an error,
    so in the pipeline the bare entry is what a page without text gets. *)
Lemma fetchUrl_success_has_no_error (pageTitle : string -> completion string)
    (readabilityText : string -> string -> completion (option string))
    (cheerioContent : string -> completion string)
    (net : Network) (u : string) (maxLength : Z) (f : FetchedContent) :
  outcome (fetchUrl pageTitle readabilityText cheerioContent net u maxLength) = Normal f ->
  success f = true ->
  error f = None.
Proof.
  intros Hf Hok.
  destruct (fetchUrl_returns pageTitle readabilityText cheerioContent net u maxLength)
    as (f' & Hf' & _ & Hshape).
  assert (f' = f) as -> by congruence.
  rewrite Hok in Hshape. apply Hshape.
Qed.

(** The records of [failedBatch] are what the batch call returns when the
    first page answers 404 and the second cannot be reached. *)
Lemma fetchAllUrls_failedBatch :
  fetchAllUrls sampleTitle sampleReadability sampleCheerio failingPages
    [link sampleResult; link sampleNews] 5 2
  = Some (Some <$> failedBatch).
Proof. vm_compute. reflexivity. Qed.

(** C10. A page that [fetchUrl] records with [success = true] and an empty
    content appears in the report with its number, title, URL and date
    only, then the separator: no content section, no failure notice, no
    snippet. The reports are made from the records of [fetchUrl], and
    those never pair [success = true] with an error message. *)
Theorem formatResponse_empty_success (toLocaleString : nat -> string)
    (pageTitle : string -> completion string)
    (readabilityText : string -> string -> completion (option string))
    (cheerioContent : string -> completion string)
    (net : Network) (u : string) (maxLength : Z)
    (query : string) (searchResults : list SearchResult)
    (fetchedContents : list FetchedContent) (maxContentPerPage : Z) (searchType : SearchType)
    (i : nat) (search : SearchResult) (f : FetchedContent) :
  outcome (fetchUrl pageTitle readabilityText cheerioContent net u maxLength) = Normal f ->
  searchResults !! i = Some search ->
  fetchedContents !! i = Some f ->
  success f = true ->
  content f = EmptyString ->
  formatResponse toLocaleString query searchResults fetchedContents maxContentPerPage
    searchType
  = reportHeader toLocaleString query (length searchResults) (successCount fetchedContents)
      (totalWords fetchedContents) searchType
    +:+ resultBlocks fetchedContents maxContentPerPage 0 (take i searchResults)
    +:+ ("## " +:+ natToString (i + 1) +:+ ". " +:+ sr_title search +:+ newline
         +:+ "**URL:** " +:+ link search +:+ newline
         +:+ match date search with
             | Some d => if truthy d then "**Date:** " +:+ d +:+ newline else EmptyString
             | None => EmptyString
             end
         +:+ newline)
    +:+ ("---" +:+ newline +:+ newline)
    +:+ resultBlocks fetchedContents maxContentPerPage (S i) (drop (S i) searchResults).
Proof.
  intros Hf Hsearch Hfetched Hok Hcontent.
  apply (formatResponse_bare_entry toLocaleString query searchResults fetchedContents
           maxContentPerPage searchType i search f Hsearch Hfetched Hok Hcontent).
  intros e He.
  rewrite (fetchUrl_success_has_no_error pageTitle readabilityText cheerioContent
             net u maxLength f Hf Hok) in He.
  discriminate He.
Qed.

(** A page with text and a page that is served with an empty body: these
    are the records of the batch call. *)
Lemma fetchAllUrls_batchWithEmptyPage :
  fetchAllUrls sampleTitle sampleReadability sampleCheerio secondPageEmpty
    [link sampleResult; link sampleNews] 5 2
  = Some (Some <$> batchWithEmptyPage).
Proof. vm_compute. reflexivity. Qed.

(** The second of two results is the page with the empty body. *)
Lemma formatResponse_empty_success_witness :
  formatResponse toLocaleStringEnUS "q" [sampleResult; sampleNews] batchWithEmptyPage
    50000 web
  = reportHeader toLocaleStringEnUS "q" 2 (successCount batchWithEmptyPage)
      (totalWords batchWithEmptyPage) web
    +:+ resultBlocks batchWithEmptyPage 50000 0 (take 1 [sampleResult; sampleNews])
    +:+ ("## " +:+ natToString (1 + 1) +:+ ". " +:+ sr_title sampleNews +:+ newline
         +:+ "**URL:** " +:+ link sampleNews +:+ newline
         +:+ match date sampleNews with
             | Some d => if truthy d then "**Date:** " +:+ d +:+ newline else EmptyString
             | None => EmptyString
             end
         +:+ newline)
    +:+ ("---" +:+ newline +:+ newline)
    +:+ resultBlocks batchWithEmptyPage 50000 2 (drop 2 [sampleResult; sampleNews]).
Proof.
  apply (formatResponse_empty_success toLocaleStringEnUS
           sampleTitle sampleReadability sampleCheerio (secondPageEmpty 1)
           "https://news.example.com/story" 100000
           "q" [sampleResult; sampleNews] batchWithEmptyPage 50000 web 1 sampleNews
           {| url := "https://news.example.com/story"; title := "A page";
              content := EmptyString; success := true; error := None;
              wordCount := Some 1 |}).
  - reflexivity.
  - reflexivity.
  - reflexivity.
  - reflexivity.
  - reflexivity.
Defined.

(** The report of that batch in full: the second result has its heading
    and nothing else. *)
Lemma formatResponse_batchWithEmptyPage_report :
  formatResponse toLocaleStringEnUS "q" [sampleResult; sampleNews] batchWithEmptyPage
    50000 web
  = "# Deep Search Results for: " +:+ dquote +:+ "q" +:+ dquote +:+ newline +:+ newline
    +:+ "**Search Type:** web" +:+ newline
    +:+ "**Results:** 2 found, 2 pages fetched successfully" +:+ newline
    +:+ "**Total Content:** ~3 words" +:+ newline +:+ newline
    +:+ "---" +:+ newline +:+ newline
    +:+ "## 1. Example Domain" +:+ newline
    +:+ "**URL:** https://example.com/" +:+ newline +:+ newline
    +:+ "### Full Page Content:" +:+ newline +:+ newline
    +:+ "hello world" +:+ newline +:+ newline
    +:+ "---" +:+ newline +:+ newline
    +:+ "## 2. Example News" +:+ newline
    +:+ "**URL:** https://news.example.com/story" +:+ newline
    +:+ "**Date:** 2 hours ago" +:+ newline +:+ newline
    +:+ "---" +:+ newline +:+ newline.
Proof. vm_compute. reflexivity. Qed.

(** ** The search query *)

Lemma buildSearchQuery_no_filter (query : string) :
  buildSearchQuery query None None = query
  /\ buildSearchQuery query (Some EmptyString) (Some EmptyString) = query.
Proof. split; reflexivity. Qed.

(** C9. The query "cats" with the include domains a.com and b.com and the
    exclude domain c.com becomes
    "cats site:a.com OR site:b.com -site:c.com", also when the domains
    come with whitespace around them. In general the include domains,
    trimmed, are appended as [site:] clauses joined by " OR ", and after
    them the exclude domains, trimmed, as [-site:] clauses joined by a
    space. *)
Theorem buildSearchQuery_site_filters :
  buildSearchQuery "cats" (Some "a.com,b.com") (Some "c.com")
  = "cats site:a.com OR site:b.com -site:c.com"
  /\ buildSearchQuery "cats" (Some " a.com , b.com") (Some "c.com ")
     = "cats site:a.com OR site:b.com -site:c.com"
  /\ forall (query : string) (c : ascii) (included : string) (d : ascii) (excluded : string),
       buildSearchQuery query (Some (String c included)) (Some (String d excluded))
       = query
         +:+ " " +:+ join " OR " (map (fun domain => "site:" +:+ trim domain)
                                    (split "," (String c included)))
         +:+ " " +:+ join " " (map (fun domain => "-site:" +:+ trim domain)
                                 (split "," (String d excluded))).
Proof.
  split; [reflexivity|]. split; [reflexivity|].
  intros query c included d excluded.
  unfold buildSearchQuery, siteClauses. cbn [truthy].
  now rewrite !map_map, !append_assoc.
Qed.

(** * Further properties *)

(** ** The retry loop under any network *)

Lemma scheduleFrom_cons (u : string) (baseDelay : Z) (from n : nat) :
  Request u :: Sleep (baseDelay * 2 ^ Z.of_nat from) :: scheduleFrom u baseDelay (S from) (S n)
  = scheduleFrom u baseDelay from (S (S n)).
Proof. reflexivity. Qed.

(** Whatever the network does, the loop runs along the schedule and stops
    on a request. *)
Lemma retryLoop_trace (net : Network) (u : string) (maxRetries : nat) (baseDelay : Z)
    (remaining : nat) :
  forall (attempt : nat) (lastError : option string),
  attempt + remaining = maxRetries ->
  exists n,
    n <= remaining /\ (1 <= remaining -> 1 <= n) /\
    trace (retryLoop net u maxRetries baseDelay remaining attempt lastError)
    = scheduleFrom u baseDelay attempt n.
Proof.
  induction remaining as [|remaining IH]; intros attempt lastError Hsum.
  - exists 0. split; [lia|]. split; [lia | reflexivity].
  - cbn [retryLoop].
    pose proof (attemptOnce_trace net u attempt) as Htrace.
    destruct (attemptOnce net u attempt) as [t [[response|e]|reason]]; cbn in Htrace; subst t;
      try (exists 1; split; [lia|]; split; [lia | reflexivity]).
    unfold bind at 1. destruct remaining as [|remaining].
    + rewrite backoff_last by lia. exists 1. split; [lia|]. split; [lia | reflexivity].
    + rewrite backoff_pauses by lia. unfold bind at 1.
      destruct (IH (S attempt) (Some e)) as (n & Hn & Hpos & Hrun); [lia|].
      destruct (retryLoop net u maxRetries baseDelay (S remaining) (S attempt) (Some e))
        as [t r]. cbn [trace fst] in Hrun. subst t.
      destruct n as [|n]; [lia|].
      exists (S (S n)). split; [lia|]. split; [lia|].
      cbn [trace fst app]. now rewrite scheduleFrom_cons.
Qed.

Lemma scheduleFrom_requests (u : string) (baseDelay : Z) (from n : nat) :
  requests (scheduleFrom u baseDelay from n) = n.
Proof.
  destruct n as [|n]; [reflexivity|]. unfold scheduleFrom.
  rewrite requests_app, schedule_requests, length_seq. cbn. lia.
Qed.

Lemma scheduleFrom_pauses (u : string) (baseDelay : Z) (from n : nat) :
  pauses (scheduleFrom u baseDelay from n)
  = map (fun k => (baseDelay * 2 ^ Z.of_nat k)%Z) (seq from (n - 1)).
Proof.
  destruct n as [|n]; [reflexivity|]. unfold scheduleFrom.
  rewrite pauses_app, schedule_pauses. cbn. rewrite app_nil_r.
  now replace (n - 0) with n by lia.
Qed.

(** The pauses of the schedule add up to a geometric sum. *)
Lemma schedule_total_pause (baseDelay : Z) (n : nat) :
  sumZ (map (fun k => (baseDelay * 2 ^ Z.of_nat k)%Z) (seq 0 n))
  = (baseDelay * (2 ^ Z.of_nat n - 1))%Z.
Proof.
  induction n as [|n IH]; [cbn; lia|].
  rewrite seq_S, map_app. unfold sumZ in *. rewrite foldr_app. cbn [map foldr plus].
  assert (Hfold : forall (l : list Z) (z : Z), foldr Z.add z l = (foldr Z.add 0 l + z)%Z).
  { induction l as [|x l IHl]; intros z; cbn; [lia|]. rewrite IHl. lia. }
  rewrite Hfold, IH. rewrite Nat2Z.inj_succ, Z.pow_succ_r by lia. lia.
Qed.

(** X1. Whatever the network answers, a call issues at most [maxRetries]
    requests, at least one when [maxRetries] is positive, and its trace is
    the schedule for that number of requests: a pause of
    [baseDelay * 2^k] after request [k], none after the last one. *)
Theorem fetchWithRetry_effort_bound (net : Network) (u : string) (maxRetries : nat)
    (baseDelay : Z) :
  exists n,
    n <= maxRetries /\ (1 <= maxRetries -> 1 <= n) /\
    trace (fetchWithRetry net u maxRetries baseDelay) = schedule u baseDelay n /\
    requests (trace (fetchWithRetry net u maxRetries baseDelay)) = n /\
    pauses (trace (fetchWithRetry net u maxRetries baseDelay))
    = map (fun k => (baseDelay * 2 ^ Z.of_nat k)%Z) (seq 0 (n - 1)).
Proof.
  unfold fetchWithRetry.
  destruct (retryLoop_trace net u maxRetries baseDelay maxRetries 0 None eq_refl)
    as (n & Hn & Hpos & Hrun).
  exists n. rewrite Hrun. unfold schedule.
  split; [exact Hn|]. split; [exact Hpos|]. split; [reflexivity|].
  split; [apply scheduleFrom_requests | apply scheduleFrom_pauses].
Qed.

(** X2. With at least one attempt allowed and a delay that is not
    negative, the pauses of a call add up to at most
    [baseDelay * (2^(maxRetries - 1) - 1)] milliseconds, whatever the
    network answers. *)
Theorem fetchWithRetry_total_pause_bound (net : Network) (u : string) (maxRetries : nat)
    (baseDelay : Z) :
  1 <= maxRetries ->
  (0 <= baseDelay)%Z ->
  (sumZ (pauses (trace (fetchWithRetry net u maxRetries baseDelay)))
   <= baseDelay * (2 ^ (Z.of_nat maxRetries - 1) - 1))%Z.
Proof.
  intros Hretries Hdelay. unfold fetchWithRetry.
  destruct (retryLoop_trace net u maxRetries baseDelay maxRetries 0 None eq_refl)
    as (n & Hn & _ & Hrun).
  rewrite Hrun, scheduleFrom_pauses, schedule_total_pause.
  apply Z.mul_le_mono_nonneg_l; [exact Hdelay|].
  apply Z.sub_le_mono_r.
  replace (Z.of_nat maxRetries - 1)%Z with (Z.of_nat (maxRetries - 1)) by lia.
  apply Z.pow_le_mono_r; lia.
Qed.

(** The default call against a server that is down: three seconds. *)
Lemma fetchWithRetry_total_pause_bound_witness :
  (sumZ (pauses (trace (fetchWithRetry
                          (fun _ => Normal {| status := 500; text := Normal "down" |})
                          "https://example.com/" 3 1000)))
   <= 1000 * (2 ^ (Z.of_nat 3 - 1) - 1))%Z.
Proof.
  apply (fetchWithRetry_total_pause_bound _ "https://example.com/" 3 1000); lia.
Defined.

(** An attempt of a kind that the loop retries leaves its error and lets
    the loop go on. *)
Lemma attemptOnce_retryable (net : Network) (u : string) (attempt : nat) (e : string) :
  retryableFailure (net attempt) = Some e ->
  attemptOnce net u attempt = ([Request u], Normal (Continue e)).
Proof.
  unfold retryableFailure.
  destruct (net attempt) as [response|reason] eqn:Hnet.
  - destruct (ok response) eqn:Hok; [discriminate|].
    destruct ((400 <=? status response)%Z && (status response <? 500)%Z
              && negb (status response =? 429)%Z); [discriminate|].
    intros [= <-]. now apply attemptOnce_not_ok.
  - destruct (includes (errorMessage reason) "timeout") eqn:Htimeout; [discriminate|].
    intros [= <-]. rewrite (attemptOnce_rejected net u attempt reason Hnet).
    now rewrite Htimeout.
Qed.

(** The failed turns [attempt], ..., [attempt + turns - 1], each followed
    by its pause, and then the rest of the loop. *)
Lemma retryLoop_skip_failures (net : Network) (u : string) (maxRetries : nat) (baseDelay : Z)
    (e : nat -> string) (rest turns : nat) :
  forall (attempt : nat) (lastError : option string),
  attempt + turns < maxRetries ->
  (forall j, attempt <= j < attempt + turns ->
     attemptOnce net u j = ([Request u], Normal (Continue (e j)))) ->
  exists lastError',
    retryLoop net u maxRetries baseDelay (turns + rest) attempt lastError
    = (flat_map (fun k => [Request u; Sleep (baseDelay * 2 ^ Z.of_nat k)]) (seq attempt turns)
       ++ trace (retryLoop net u maxRetries baseDelay rest (attempt + turns) lastError'),
       outcome (retryLoop net u maxRetries baseDelay rest (attempt + turns) lastError')).
Proof.
  induction turns as [|turns IH]; intros attempt lastError Hlt Hfail.
  - exists lastError. rewrite Nat.add_0_r. cbn [Nat.add seq flat_map app].
    now destruct (retryLoop net u maxRetries baseDelay rest attempt lastError).
  - destruct (IH (S attempt) (Some (e attempt))) as [lastError' Hrun];
      [lia | intros j Hj; apply Hfail; lia|].
    exists lastError'. cbn [Nat.add retryLoop]. rewrite Hfail by lia. unfold bind at 1.
    rewrite backoff_pauses by lia. unfold bind at 1. rewrite Hrun.
    replace (S attempt + turns) with (attempt + S turns) by lia. reflexivity.
Qed.

(** X3. The first success ends the call. When the attempts before attempt
    [k] all fail in a way that is retried (a status outside 200-299 that
    is no client error other than 429, or a rejection that is no timeout)
    and attempt [k], one of the [maxRetries] allowed, is answered with a
    status in 200-299, the call returns that response after [k + 1]
    requests and the [k] pauses of the schedule. *)
Theorem fetchWithRetry_returns_first_success (net : Network) (u : string)
    (maxRetries : nat) (baseDelay : Z) (k : nat) (response : Response) :
  k < maxRetries ->
  (forall j, j < k -> is_Some (retryableFailure (net j))) ->
  net k = Normal response ->
  ok response = true ->
  fetchWithRetry net u maxRetries baseDelay = (schedule u baseDelay (S k), Normal response).
Proof.
  intros Hk Hfail Hnet Hok. unfold fetchWithRetry.
  replace maxRetries with (k + S (maxRetries - k - 1)) at 2 by lia.
  destruct (retryLoop_skip_failures net u maxRetries baseDelay
              (fun j => default EmptyString (retryableFailure (net j)))
              (S (maxRetries - k - 1)) k 0 None) as [lastError' ->]; [lia | |].
  - intros j Hj. apply attemptOnce_retryable.
    destruct (Hfail j) as [e He]; [lia|]. now rewrite He.
  - cbn [Nat.add].
    rewrite (retryLoop_stops_on_return net u maxRetries baseDelay _ k lastError' response)
      by now apply attemptOnce_ok.
    reflexivity.
Qed.

(** A page that answers 503, then resets the connection, then is served. *)
Lemma fetchWithRetry_returns_first_success_witness :
  fetchWithRetry
    (fun attempt =>
       match attempt with
       | 0 => Normal {| status := 503; text := Normal "busy" |}
       | 1 => Throw (JsError "read ECONNRESET")
       | _ => Normal {| status := 200; text := Normal "<html></html>" |}
       end)
    "https://example.com/" 3 1000
  = (schedule "https://example.com/" 1000 3,
     Normal {| status := 200; text := Normal "<html></html>" |}).
Proof.
  apply (fetchWithRetry_returns_first_success _ "https://example.com/" 3 1000 2).
  - lia.
  - intros [|[|j]] Hj; [now eexists | now eexists | lia].
  - reflexivity.
  - reflexivity.
Defined.

(** All turns fail, each with an error of its own. *)
Lemma retryLoop_all_fail_each (net : Network) (u : string) (maxRetries : nat) (baseDelay : Z)
    (e : nat -> string) (remaining : nat) :
  forall (attempt : nat) (lastError : option string),
  (forall j, attempt <= j < attempt + remaining ->
     attemptOnce net u j = ([Request u], Normal (Continue (e j)))) ->
  retryLoop net u maxRetries baseDelay remaining attempt lastError =
    (failedTurns u maxRetries baseDelay attempt remaining,
     Throw (JsError (match remaining with
                     | O => default "Max retries exceeded" lastError
                     | S r => e (attempt + r)
                     end))).
Proof.
  induction remaining as [|remaining IH]; intros attempt lastError Hfail.
  - reflexivity.
  - cbn [retryLoop]. rewrite Hfail by lia. unfold bind at 1.
    rewrite (IH (S attempt) (Some (e attempt))) by (intros j Hj; apply Hfail; lia).
    unfold failedTurns. cbn [seq flat_map].
    unfold backoff at 1 3.
    destruct (Z.of_nat attempt <? Z.of_nat maxRetries - 1)%Z; cbn;
      destruct remaining; cbn; rewrite ?Nat.add_0_r; try reflexivity;
      now replace (S (attempt + remaining)) with (attempt + S remaining) by lia.
Qed.

(** X4. The last error wins. When each of the [maxRetries] attempts fails
    in a way that is retried, the call makes [maxRetries] requests along
    the schedule and throws the error of the last attempt, not that of an
    earlier one. *)
Theorem fetchWithRetry_last_error_wins (net : Network) (u : string)
    (maxRetries : nat) (baseDelay : Z) (e : nat -> string) :
  1 <= maxRetries ->
  (forall j, j < maxRetries -> retryableFailure (net j) = Some (e j)) ->
  fetchWithRetry net u maxRetries baseDelay
  = (schedule u baseDelay maxRetries, Throw (JsError (e (maxRetries - 1)))).
Proof.
  intros Hpos Hfail. unfold fetchWithRetry.
  rewrite (retryLoop_all_fail_each net u maxRetries baseDelay e)
    by (intros j Hj; apply attemptOnce_retryable, Hfail; lia).
  rewrite failedTurns_schedule by exact Hpos.
  destruct maxRetries as [|n]; [lia|]. cbn [Nat.add].
  now replace (S n - 1) with n by lia.
Qed.

(** A server error, then a thrown value that is no [Error], then a rate
    limit: the call fails with the rate limit. *)
Lemma fetchWithRetry_last_error_wins_witness :
  fetchWithRetry
    (fun attempt =>
       match attempt with
       | 0 => Normal {| status := 500; text := Normal "down" |}
       | 1 => Throw NonError
       | _ => Normal {| status := 429; text := Normal "slow down" |}
       end)
    "https://example.com/" 3 1000
  = (schedule "https://example.com/" 1000 3, Throw (JsError "HTTP 429")).
Proof.
  apply (fetchWithRetry_last_error_wins _ "https://example.com/" 3 1000
           (fun attempt =>
              match attempt with
              | 0 => "HTTP 500"
              | 1 => "Unknown error"
              | _ => "HTTP 429"
              end)).
  - lia.
  - intros [|[|j]] _; reflexivity.
Defined.

(** ** Lengths and prefixes of strings *)

Lemma append_length (a b : string) :
  String.length (a +:+ b) = String.length a + String.length b.
Proof.
  induction a as [|x a IH]; [reflexivity|].
  change (S (String.length (a +:+ b)) = S (String.length a + String.length b)).
  now rewrite IH.
Qed.




Lemma truncationMarker_length : String.length truncationMarker = 24.
Proof. reflexivity. Qed.


Lemma prefix_append (a b : string) : String.prefix a (a +:+ b) = true.
Proof.
  induction a as [|x a IH]; [now destruct b|].
  change (String.prefix (String x a) (String x (a +:+ b)) = true).
  cbn. destruct (ascii_dec x x); [exact IH | congruence].
Qed.

(** ** One page, further *)

Section FetchUrlFurther.

Variable pageTitle : string -> completion string.
Variable readabilityText : string -> string -> completion (option string).
Variable cheerioContent : string -> completion string.

Local Abbreviation fetchUrl := (fetchUrl pageTitle readabilityText cheerioContent).
Local Abbreviation extractContentWithCheerio := (extractContentWithCheerio cheerioContent).
Local Abbreviation extractContentWithReadability :=
  (extractContentWithReadability readabilityText cheerioContent).

(** Reading and parsing a page adds nothing to the requests and pauses of
    the retry loop. *)
Lemma fetchUrl_trace (net : Network) (u : string) (maxLength : Z) :
  trace (fetchUrl net u maxLength) = trace (fetchWithRetry net u 3 1000).
Proof.
  unfold fetchUrl, trace.
  destruct (fetchWithRetry net u 3 1000) as [t [response|reason]]; cbn;
    [|now rewrite app_nil_r].
  destruct (text response) as [html|reason]; cbn; [|now rewrite !app_nil_r].
  destruct (pageTitle html) as [pageTitle'|reason]; cbn; [|now rewrite !app_nil_r].
  destruct (extractContentWithReadability html u) as [extracted|reason]; cbn;
    now rewrite !app_nil_r.
Qed.

(** X5. Whatever the network answers and whatever the page holds, fetching
    one page takes one, two or three requests to its URL, with a pause of
    1000 ms after the first and of 2000 ms after the second when they are
    followed by another. *)
Theorem fetchUrl_effort_bound (net : Network) (u : string) (maxLength : Z) :
  exists n,
    1 <= n <= 3 /\
    trace (fetchUrl net u maxLength) = schedule u 1000 n /\
    requests (trace (fetchUrl net u maxLength)) = n /\
    (sumZ (pauses (trace (fetchUrl net u maxLength))) <= 3000)%Z.
Proof.
  rewrite fetchUrl_trace. unfold fetchWithRetry.
  destruct (retryLoop_trace net u 3 1000 3 0 None eq_refl) as (n & Hn & Hpos & Hrun).
  exists n. rewrite Hrun. split; [lia|]. split; [reflexivity|].
  split; [apply scheduleFrom_requests|].
  destruct n as [|[|[|[|n]]]]; cbn; lia.
Qed.


(** X6. The content of a record never has more than [maxLength]
    characters besides the 24 of the truncation marker. *)
Theorem fetchUrl_content_bound (net : Network) (u : string) (maxLength : Z)
    (f : FetchedContent) :
  (0 <= maxLength)%Z ->
  outcome (fetchUrl net u maxLength) = Normal f ->
  (Z.of_nat (String.length (content f)) <= maxLength + 24)%Z.
Proof.
  intros Hmax Hf.
  destruct (success f) eqn:Hok.
  - destruct (fetchUrl_success_record pageTitle readabilityText cheerioContent
                net u maxLength f Hf Hok) as (html & raw & _ & _ & ->).
    destruct (Z.gtb_spec (Z.of_nat (String.length (cleanText raw))) maxLength); [|lia].
    rewrite append_length, substring0_length, truncationMarker_length. lia.
  - destruct (fetchUrl_returns pageTitle readabilityText cheerioContent net u maxLength)
      as (f' & Hf' & _ & Hshape).
    assert (f' = f) as -> by congruence. rewrite Hok in Hshape.
    destruct Hshape as [errorMsg ->]. cbn. lia.
Qed.

(** X7. A failure after the response has arrived is recorded like a
    failure of the request, and nothing is requested again: when reading
    the body, reading the title or extracting the text throws, the call
    has the requests and pauses of its retry loop and no more, and the
    page gets the record with its URL, an empty title, an empty content,
    [success = false], no word count, and for its error the message of
    the [Error] that was thrown, or "Unknown error" for any other value
    thrown. *)
Theorem fetchUrl_records_late_failures (net : Network) (u : string) (maxLength : Z)
    (response : Response) (reason : thrown) :
  outcome (fetchWithRetry net u 3 1000) = Normal response ->
  (text response = Throw reason \/
   (exists html, text response = Normal html /\ pageTitle html = Throw reason) \/
   (exists html pageTitle',
      text response = Normal html /\ pageTitle html = Normal pageTitle' /\
      extractContentWithReadability html u = Throw reason)) ->
  fetchUrl net u maxLength
  = (trace (fetchWithRetry net u 3 1000),
     Normal {| url := u; title := EmptyString; content := EmptyString;
               success := false;
               error := Some (match reason with
                              | JsError message => message
                              | NonError => "Unknown error"
                              end);
               wordCount := None |}).
Proof.
  intros Hresponse Hlate. unfold fetchUrl, outcome, trace in *.
  destruct (fetchWithRetry net u 3 1000) as [t c]. cbn in Hresponse. subst c.
  assert (Hstages :
            bind (lift (text response))
              (fun html =>
                 bind (lift (pageTitle html))
                   (fun _ => bind (lift (extractContentWithReadability html u))
                               (fun _ => ret tt)))
            = ([], Throw reason)).
  { destruct Hlate as [Htext | [(html & Htext & Htitle) | (html & found & Htext & Htitle & Hextract)]].
    - now rewrite Htext.
    - rewrite Htext. cbn. now rewrite Htitle.
    - rewrite Htext. cbn. rewrite Htitle. cbn. now rewrite Hextract. }
  cbn in Hstages |- *.
  destruct (text response) as [html|r]; cbn in Hstages |- *.
  - destruct (pageTitle html) as [found|r]; cbn in Hstages |- *.
    + destruct (extractContentWithReadability html u) as [extracted|r]; cbn in Hstages |- *.
      * discriminate Hstages.
      * injection Hstages as ->. rewrite !app_nil_r. destruct reason; reflexivity.
    + injection Hstages as ->. rewrite !app_nil_r. destruct reason; reflexivity.
  - injection Hstages as ->. rewrite !app_nil_r. destruct reason; reflexivity.
Qed.


End FetchUrlFurther.

(** A page of text that is served at once. *)
Lemma fetchUrl_content_bound_witness :
  (Z.of_nat (String.length
               (content {| url := "https://example.com/"; title := "A page";
                           content := "hello"
                                      +:+ truncationMarker;
                           success := true; error := None; wordCount := Some 2%nat |}))
   <= 5 + 24)%Z.
Proof.
  apply (fetchUrl_content_bound (fun _ => Normal "A page") (fun html _ => Normal (Some html))
           Normal (fun _ => Normal {| status := 200; text := Normal "hello world" |})
           "https://example.com/" 5).
  - lia.
  - reflexivity.
Defined.

(** Three pages that are served at once: the body of the first cannot be
    read, the title of the second cannot be read, and in the third no
    article is found and the fallback throws a value that is no [Error]. *)
Lemma fetchUrl_records_late_failures_witness :
  fetchUrl sampleTitle sampleReadability sampleCheerio
    (fun _ => Normal {| status := 200; text := Throw (JsError "terminated") |})
    "https://a.example" 100000
  = (trace (fetchWithRetry
              (fun _ => Normal {| status := 200; text := Throw (JsError "terminated") |})
              "https://a.example" 3 1000),
     Normal {| url := "https://a.example"; title := EmptyString; content := EmptyString;
               success := false; error := Some "terminated"; wordCount := None |}) /\
  fetchUrl (fun _ => Throw (JsError "Invalid selector")) sampleReadability sampleCheerio
    (servedPages 1) "https://b.example" 100000
  = (trace (fetchWithRetry (servedPages 1) "https://b.example" 3 1000),
     Normal {| url := "https://b.example"; title := EmptyString; content := EmptyString;
               success := false; error := Some "Invalid selector"; wordCount := None |}) /\
  fetchUrl sampleTitle (fun _ _ => Normal None) (fun _ => Throw NonError)
    (servedPages 2) "https://c.example" 100000
  = (trace (fetchWithRetry (servedPages 2) "https://c.example" 3 1000),
     Normal {| url := "https://c.example"; title := EmptyString; content := EmptyString;
               success := false; error := Some "Unknown error"; wordCount := None |}).
Proof.
  split; [|split].
  - apply (fetchUrl_records_late_failures sampleTitle sampleReadability sampleCheerio
             (fun _ => Normal {| status := 200; text := Throw (JsError "terminated") |})
             "https://a.example" 100000
             {| status := 200; text := Throw (JsError "terminated") |}
             (JsError "terminated")).
    + reflexivity.
    + left. reflexivity.
  - apply (fetchUrl_records_late_failures (fun _ => Throw (JsError "Invalid selector"))
             sampleReadability sampleCheerio
             (servedPages 1) "https://b.example" 100000
             {| status := 200; text := Normal "hello world" |}
             (JsError "Invalid selector")).
    + reflexivity.
    + right. left. exists "hello world". split; reflexivity.
  - apply (fetchUrl_records_late_failures sampleTitle (fun _ _ => Normal None)
             (fun _ => Throw NonError)
             (servedPages 2) "https://c.example" 100000
             {| status := 200; text := Normal "hello world" |}
             NonError).
    + reflexivity.
    + right. right. exists "hello world", "A page". repeat split; reflexivity.
Defined.

(** In each of the three cases the call made one request and no pause. *)
Lemma fetchUrl_late_failure_single_request :
  trace (fetchUrl sampleTitle (fun _ _ => Normal None) (fun _ => Throw NonError)
           (servedPages 2) "https://c.example" 100000)
  = [Request "https://c.example"].
Proof. reflexivity. Qed.


(** ** The clean-up of extracted text *)

Lemma trimStart_collapseRuns (s : string) (inRun : bool) :
  trimStart (collapseRuns inRun s) = collapseRuns true s.
Proof.
  revert inRun. induction s as [|c rest IH]; intros inRun; [reflexivity|].
  cbn [collapseRuns]. destruct (isWhitespace c) eqn:Hc.
  - destruct inRun; [apply IH|]. cbn [trimStart].
    change (isWhitespace " ") with true. cbn iota. apply IH.
  - cbn [trimStart]. now rewrite Hc.
Qed.

Lemma tokensFrom_truthy (s : string) :
  forall piece, Forall (fun t => truthy t = true) (tokensFrom piece s).
Proof.
  induction s as [|c rest IH]; intros piece; cbn [tokensFrom].
  - destruct (truthy piece) eqn:Hp; repeat constructor; exact Hp.
  - destruct (isWhitespace c); [|apply IH].
    destruct (truthy piece) eqn:Hp; [constructor; [exact Hp|]|]; apply IH.
Qed.

Lemma join_cons (sep piece : string) (more : list string) :
  join sep (piece :: more)
  = piece +:+ match more with
              | [] => EmptyString
              | _ => sep +:+ join sep more
              end.
Proof. destruct more; cbn [join]; [now rewrite append_empty_r | reflexivity]. Qed.

Lemma join_truthy (sep : string) (pieces : list string) :
  pieces <> [] ->
  Forall (fun t => truthy t = true) pieces ->
  truthy (join sep pieces) = true.
Proof.
  intros Hne Hall. destruct Hall as [|piece more Hpiece _]; [congruence|].
  rewrite join_cons. destruct piece; [discriminate Hpiece | reflexivity].
Qed.

Lemma trimEnd_word_char (c : ascii) (s : string) :
  isWhitespace c = false -> trimEnd (String c s) = String c (trimEnd s).
Proof. intros Hc. rewrite trimEnd_cons, Hc. now destruct (trimEnd s). Qed.

(** The tokens, joined by single spaces, are what is left of the
    collapsed text: behind a token that is being read, and at the start. *)
Lemma join_tokensFrom (s : string) :
  forall piece,
  join " " (tokensFrom piece s)
  = if truthy piece then piece +:+ trimEnd (collapseRuns false s)
    else trimEnd (collapseRuns true s).
Proof.
  induction s as [|c rest IH]; intros piece.
  - cbn. destruct (truthy piece); [now rewrite append_empty_r | reflexivity].
  - cbn [tokensFrom collapseRuns]. destruct (isWhitespace c) eqn:Hc.
    + destruct (truthy piece) eqn:Hp; [|apply IH].
      pose proof (IH EmptyString) as Hrest. cbn [truthy] in Hrest.
      pose proof (tokensFrom_truthy rest EmptyString) as Hall.
      rewrite join_cons, trimEnd_cons. change (isWhitespace " ") with true. cbn iota.
      rewrite <- Hrest.
      destruct (tokensFrom EmptyString rest) as [|t more]; [reflexivity|].
      assert (Hjoin : truthy (join " " (t :: more)) = true)
        by (apply join_truthy; [discriminate | exact Hall]).
      destruct (join " " (t :: more)); [discriminate Hjoin | reflexivity].
    + rewrite IH, append_truthy, trimEnd_word_char by exact Hc.
      rewrite append_assoc.
      change (String c EmptyString +:+ trimEnd (collapseRuns false rest))
        with (String c (trimEnd (collapseRuns false rest))).
      destruct piece; reflexivity.
Qed.

Lemma cleanText_join (s : string) : cleanText s = join " " (whitespaceTokens s).
Proof.
  rewrite cleanText_unfold. unfold trim, collapseWhitespace, whitespaceTokens.
  now rewrite trimStart_collapseRuns, join_tokensFrom.
Qed.

(** X9. The clean-up that both extractors apply leaves exactly the
    whitespace-separated tokens of the text, in order, with one space
    between two of them: no whitespace at either end, no tab or newline,
    no run of spaces. *)
Theorem cleanText_joins_tokens (s : string) :
  cleanText s = join " " (whitespaceTokens s).
Proof. apply cleanText_join. Qed.

Lemma list_ascii_of_append (a b : string) :
  list_ascii_of_string (a +:+ b) = list_ascii_of_string a ++ list_ascii_of_string b.
Proof.
  induction a as [|x a IH]; [reflexivity|].
  change (x :: list_ascii_of_string (a +:+ b)
          = x :: (list_ascii_of_string a ++ list_ascii_of_string b)).
  now rewrite IH.
Qed.

(** No token holds a whitespace character. *)
Lemma tokensFrom_words (s : string) :
  forall piece,
  Forall (fun c => isWhitespace c = false) (list_ascii_of_string piece) ->
  Forall (fun t => Forall (fun c => isWhitespace c = false) (list_ascii_of_string t))
    (tokensFrom piece s).
Proof.
  induction s as [|c rest IH]; intros piece Hpiece; cbn [tokensFrom].
  - destruct (truthy piece); repeat constructor; exact Hpiece.
  - destruct (isWhitespace c) eqn:Hc.
    + destruct (truthy piece); [constructor; [exact Hpiece|]|]; apply IH; constructor.
    + apply IH. rewrite list_ascii_of_append. apply Forall_app. split; [exact Hpiece|].
      repeat constructor. exact Hc.
Qed.

(** Reading a word moves it into the token that is being read. *)
Lemma tokensFrom_word (w : string) :
  forall piece rest,
  Forall (fun c => isWhitespace c = false) (list_ascii_of_string w) ->
  tokensFrom piece (w +:+ rest) = tokensFrom (piece +:+ w) rest.
Proof.
  induction w as [|c w IH]; intros piece rest Hw.
  - now rewrite append_empty_r.
  - apply Forall_cons in Hw as [Hc Hw].
    change (String c w +:+ rest) with (String c (w +:+ rest)).
    cbn [tokensFrom]. rewrite Hc, IH by exact Hw.
    now rewrite append_assoc.
Qed.

(** Splitting what was joined gives the tokens back. *)
Lemma tokens_of_join (tokens : list string) :
  Forall (fun t => truthy t = true) tokens ->
  Forall (fun t => Forall (fun c => isWhitespace c = false) (list_ascii_of_string t)) tokens ->
  whitespaceTokens (join " " tokens) = tokens.
Proof.
  unfold whitespaceTokens.
  induction tokens as [|t more IH]; intros Htruthy Hwords; [reflexivity|].
  apply Forall_cons in Htruthy as [Ht Htruthy]. apply Forall_cons in Hwords as [Hw Hwords].
  rewrite join_cons, tokensFrom_word by exact Hw.
  change (EmptyString +:+ t) with t.
  destruct more as [|t' more].
  - cbn. now rewrite Ht.
  - change (" " +:+ join " " (t' :: more)) with (String " " (join " " (t' :: more))).
    cbn [tokensFrom]. change (isWhitespace " ") with true. cbn iota.
    rewrite Ht. f_equal. now apply IH.
Qed.

(** X10. The clean-up changes the whitespace of a text and nothing else:
    the cleaned text has the same whitespace-separated tokens as the text,
    and cleaning it again changes nothing. *)
Theorem cleanText_keeps_tokens (s : string) :
  whitespaceTokens (cleanText s) = whitespaceTokens s /\
  cleanText (cleanText s) = cleanText s.
Proof.
  assert (Htokens : whitespaceTokens (cleanText s) = whitespaceTokens s).
  { rewrite cleanText_join. apply tokens_of_join.
    - apply tokensFrom_truthy.
    - apply tokensFrom_words. constructor. }
  split; [exact Htokens|].
  now rewrite (cleanText_join (cleanText s)), Htokens, <- cleanText_join.
Qed.

Section ExtractorFurther.

Variable readabilityText : string -> string -> completion (option string).
Variable cheerioContent : string -> completion string.

Local Abbreviation extractContentWithCheerio := (extractContentWithCheerio cheerioContent).
Local Abbreviation extractContentWithReadability :=
  (extractContentWithReadability readabilityText cheerioContent).

(** X11. Nothing that Readability does can make the extraction fail.
    When the fallback finds the text of the page, the extraction returns
    the cleaned text of the article if Readability returns one with text,
    and the cleaned text of the fallback in every other case: no article,
    an article without text, or an exception. *)
Theorem extractContentWithReadability_never_fails_on_readability (html u found : string) :
  cheerioContent html = Normal found ->
  extractContentWithReadability html u
  = Normal (cleanText (match readabilityText html u with
                       | Normal (Some textContent) =>
                           if truthy textContent then textContent else found
                       | _ => found
                       end)).
Proof.
  intros Hcheerio.
  assert (Hfallback : extractContentWithCheerio html = Normal (cleanText found))
    by (unfold extractContentWithCheerio; now rewrite Hcheerio).
  unfold extractContentWithReadability.
  destruct (readabilityText html u) as [[textContent|]|reason]; try exact Hfallback.
  destruct (truthy textContent); [reflexivity | exact Hfallback].
Qed.

End ExtractorFurther.

(** Readability throws on a page whose body holds text. *)
Lemma extractContentWithReadability_never_fails_on_readability_witness :
  extractContentWithReadability (fun _ _ => Throw (JsError "Invalid URL")) Normal
    "  some   text " "not a url"
  = Normal (cleanText "  some   text ").
Proof.
  apply (extractContentWithReadability_never_fails_on_readability
           (fun _ _ => Throw (JsError "Invalid URL")) Normal
           "  some   text " "not a url" "  some   text ").
  reflexivity.
Defined.

(** ** The batch, further *)

Section BatchFurther.

Variable pageTitle : string -> completion string.
Variable readabilityText : string -> string -> completion (option string).
Variable cheerioContent : string -> completion string.

Local Abbreviation fetchUrl := (fetchUrl pageTitle readabilityText cheerioContent).
Local Abbreviation fetchAllUrls := (fetchAllUrls pageTitle readabilityText cheerioContent).

(** The array that the call returns, slot by slot. *)
Lemma fetchAllUrls_returns_records (nets : nat -> Network) (urls : list string)
    (concurrency fuel : nat) :
  1 <= concurrency ->
  length urls <= fuel ->
  exists records,
    fetchAllUrls nets urls concurrency fuel = Some (Some <$> records) /\
    length records = length urls /\
    forall i u, urls !! i = Some u ->
      exists f, records !! i = Some f /\ outcome (fetchUrl (nets i) u 100000) = Normal f.
Proof.
  intros Hpos Hfuel.
  destruct (fetchAllUrls_slots pageTitle readabilityText cheerioContent
              nets urls concurrency fuel Hpos Hfuel) as (results & Hrun & Hlen & Hslots).
  assert (Hdense : exists records, results = Some <$> records).
  { assert (Hfull : forall i, i < length results -> exists f, results !! i = Some (Some f)).
    { intros i Hi. destruct (lookup_lt_is_Some_2 urls i) as [u Hu]; [lia|].
      destruct (Hslots i u Hu) as (f & Hf & _). now exists f. }
    clear Hrun Hlen Hslots. induction results as [|slot results IH].
    - now exists [].
    - destruct (Hfull 0) as [f Hf]; [cbn; lia|]. injection Hf as ->.
      destruct IH as [records ->].
      + intros i Hi. apply (Hfull (S i)). cbn. lia.
      + now exists (f :: records). }
  destruct Hdense as [records ->]. exists records.
  rewrite length_fmap in Hlen. split; [exact Hrun|]. split; [exact Hlen|].
  intros i u Hu. destruct (Hslots i u Hu) as (f & Hf & Hfetch).
  exists f. split; [|exact Hfetch].
  rewrite list_lookup_fmap in Hf. destruct (records !! i); cbn in Hf; congruence.
Qed.

(** X12. The size of the windows decides when a page is fetched, not what
    is recorded for it: for the same answers of the network to the
    requests of each page, two calls with window sizes of at least 1
    return the same array. *)
Theorem fetchAllUrls_window_size_irrelevant (nets : nat -> Network) (urls : list string)
    (concurrency concurrency' fuel fuel' : nat) :
  1 <= concurrency ->
  1 <= concurrency' ->
  length urls <= fuel ->
  length urls <= fuel' ->
  fetchAllUrls nets urls concurrency fuel = fetchAllUrls nets urls concurrency' fuel' /\
  is_Some (fetchAllUrls nets urls concurrency fuel).
Proof.
  intros Hpos Hpos' Hfuel Hfuel'.
  destruct (fetchAllUrls_returns_records nets urls concurrency fuel Hpos Hfuel)
    as (records & -> & Hlen & Hslots).
  destruct (fetchAllUrls_returns_records nets urls concurrency' fuel' Hpos' Hfuel')
    as (records' & -> & Hlen' & Hslots').
  split; [|now eexists]. do 2 f_equal. apply list_eq. intros i.
  destruct (urls !! i) as [u|] eqn:Hu.
  - destruct (Hslots i u Hu) as (f & -> & Hf). destruct (Hslots' i u Hu) as (f' & -> & Hf').
    congruence.
  - apply lookup_ge_None in Hu.
    rewrite (lookup_ge_None_2 records), (lookup_ge_None_2 records') by lia. reflexivity.
Qed.

End BatchFurther.

(** Seven pages in windows of five and in windows of two. *)
Lemma fetchAllUrls_window_size_irrelevant_witness :
  fetchAllUrls (fun _ => Normal "A page") (fun html _ => Normal (Some html)) Normal
    (fun i _ => Normal {| status := if Nat.even i then 200%Z else 500%Z;
                          text := Normal "some text" |})
    ["a"; "b"; "c"; "d"; "e"; "f"; "g"] 5 7
  = fetchAllUrls (fun _ => Normal "A page") (fun html _ => Normal (Some html)) Normal
      (fun i _ => Normal {| status := if Nat.even i then 200%Z else 500%Z;
                            text := Normal "some text" |})
      ["a"; "b"; "c"; "d"; "e"; "f"; "g"] 2 7 /\
  is_Some
    (fetchAllUrls (fun _ => Normal "A page") (fun html _ => Normal (Some html)) Normal
       (fun i _ => Normal {| status := if Nat.even i then 200%Z else 500%Z;
                             text := Normal "some text" |})
       ["a"; "b"; "c"; "d"; "e"; "f"; "g"] 5 7).
Proof.
  apply (fetchAllUrls_window_size_irrelevant (fun _ => Normal "A page")
           (fun html _ => Normal (Some html)) Normal _
           ["a"; "b"; "c"; "d"; "e"; "f"; "g"] 5 2 7 7); cbn; lia.
Defined.

(** ** The report, further *)

(** X13. A search result for which the array of outcomes has no entry
    appears in the report with its number, title, URL and date only. *)
Theorem formatResponse_missing_outcome (toLocaleString : nat -> string) (query : string)
    (searchResults : list SearchResult) (fetchedContents : list FetchedContent)
    (maxContentPerPage : Z) (searchType : SearchType) (i : nat) (search : SearchResult) :
  searchResults !! i = Some search ->
  length fetchedContents <= i ->
  formatResponse toLocaleString query searchResults fetchedContents maxContentPerPage searchType
  = reportHeader toLocaleString query (length searchResults) (successCount fetchedContents)
      (totalWords fetchedContents) searchType
    +:+ resultBlocks fetchedContents maxContentPerPage 0 (take i searchResults)
    +:+ resultHeading i search
    +:+ separator
    +:+ resultBlocks fetchedContents maxContentPerPage (S i) (drop (S i) searchResults).
Proof.
  intros Hsearch Hmissing.
  rewrite (formatResponse_result toLocaleString _ _ _ _ _ i search Hsearch).
  now rewrite (lookup_ge_None_2 fetchedContents i Hmissing).
Qed.

(** One search result and no outcome at all. *)
Lemma formatResponse_missing_outcome_witness :
  formatResponse toLocaleStringEnUS "q" [sampleResult] [] 50000 web
  = reportHeader toLocaleStringEnUS "q" 1 (successCount []) (totalWords []) web
    +:+ resultBlocks [] 50000 0 (take 0 [sampleResult])
    +:+ resultHeading 0 sampleResult
    +:+ separator
    +:+ resultBlocks [] 50000 1 (drop 1 [sampleResult]).
Proof.
  apply (formatResponse_missing_outcome toLocaleStringEnUS "q" [sampleResult] [] 50000 web
           0 sampleResult).
  - reflexivity.
  - cbn. lia.
Defined.

(** ** The search query, further *)

(** X14. The query that the user gave is never altered: whatever the
    domain filters are, the search query starts with it. *)
Theorem buildSearchQuery_keeps_query (query : string)
    (include_domains exclude_domains : option string) :
  String.prefix query (buildSearchQuery query include_domains exclude_domains) = true.
Proof.
  assert (Hself : String.prefix query query = true).
  { rewrite <- (append_empty_r query) at 2. apply prefix_append. }
  unfold buildSearchQuery.
  destruct include_domains as [included|], exclude_domains as [excluded|];
    try destruct (truthy included); try destruct (truthy excluded);
    rewrite ?append_assoc; solve [exact Hself | apply prefix_append].
Qed.

Lemma includes_comma_free (d : string) :
  includes d "," = false ->
  Forall (fun c => Ascii.eqb c "," = false) (list_ascii_of_string d).
Proof.
  induction d as [|c d IH]; [constructor|].
  cbn [includes String.prefix list_ascii_of_string].
  destruct (ascii_dec "," c) as [<-|Hne].
  - now destruct d.
  - cbn. intros H. constructor; [|now apply IH].
    apply Ascii.eqb_neq. congruence.
Qed.

Lemma splitAt_piece (sep : ascii) (w : string) :
  forall piece rest,
  Forall (fun c => Ascii.eqb c sep = false) (list_ascii_of_string w) ->
  splitAt sep piece (w +:+ rest) = splitAt sep (piece +:+ w) rest.
Proof.
  induction w as [|c w IH]; intros piece rest Hw.
  - now rewrite append_empty_r.
  - apply Forall_cons in Hw as [Hc Hw].
    change (String c w +:+ rest) with (String c (w +:+ rest)).
    cbn [splitAt]. rewrite Hc, IH by exact Hw.
    now rewrite append_assoc.
Qed.

(** Splitting at commas what was joined with commas gives the pieces
    back. *)
Lemma split_join (pieces : list string) :
  pieces <> [] ->
  Forall (fun d => includes d "," = false) pieces ->
  split "," (join "," pieces) = pieces.
Proof.
  unfold split. induction pieces as [|d more IH]; intros Hne Hfree; [congruence|].
  apply Forall_cons in Hfree as [Hd Hfree].
  rewrite join_cons, splitAt_piece by now apply includes_comma_free.
  change (EmptyString +:+ d) with d.
  destruct more as [|d' more]; [reflexivity|].
  change ("," +:+ join "," (d' :: more)) with (String "," (join "," (d' :: more))).
  cbn [splitAt]. change (Ascii.eqb "," ",") with true. cbn iota.
  f_equal. now apply IH.
Qed.

Lemma join_empty_list (sep : string) (pieces : list string) :
  truthy (join sep pieces) = true -> pieces <> [].
Proof. now destruct pieces. Qed.

(** X15. Lists of domains go through the comma-separated parameters
    unharmed. For domains without a comma, given as their lists joined by
    commas, the search query is the query, then one [site:] clause per
    include domain, trimmed, joined by " OR ", then one [-site:] clause per
    exclude domain, trimmed, joined by a space. *)
Theorem buildSearchQuery_domain_lists (query : string) (included excluded : list string) :
  Forall (fun d => includes d "," = false) included ->
  Forall (fun d => includes d "," = false) excluded ->
  truthy (join "," included) = true ->
  truthy (join "," excluded) = true ->
  buildSearchQuery query (Some (join "," included)) (Some (join "," excluded))
  = query
    +:+ " " +:+ join " OR " (map (fun d => "site:" +:+ trim d) included)
    +:+ " " +:+ join " " (map (fun d => "-site:" +:+ trim d) excluded).
Proof.
  intros Hincluded Hexcluded Hin Hex.
  unfold buildSearchQuery, siteClauses. rewrite Hin, Hex.
  rewrite !split_join by (try exact Hincluded; try exact Hexcluded;
                          eapply join_empty_list; eassumption).
  now rewrite !map_map, !append_assoc.
Qed.

(** Two include domains, one of them padded, and one exclude domain. *)
Lemma buildSearchQuery_domain_lists_witness :
  buildSearchQuery "cats" (Some (join "," ["reddit.com"; " github.com "]))
    (Some (join "," ["pinterest.com"]))
  = "cats"
    +:+ " " +:+ join " OR " (map (fun d => "site:" +:+ trim d) ["reddit.com"; " github.com "])
    +:+ " " +:+ join " " (map (fun d => "-site:" +:+ trim d) ["pinterest.com"]).
Proof.
  apply (buildSearchQuery_domain_lists "cats" ["reddit.com"; " github.com "]
           ["pinterest.com"]).
  - repeat constructor.
  - repeat constructor.
  - reflexivity.
  - reflexivity.
Defined.

(** ** The search and the handlers *)

Lemma formatLoopSparse_dense (records : list FetchedContent) (maxContentPerPage : Z)
    (pending : list SearchResult) :
  forall (i : nat) (response : string),
  formatLoopSparse (Some <$> records) maxContentPerPage i pending response
  = formatLoop records maxContentPerPage i pending response.
Proof.
  induction pending as [|search rest IH]; intros i response; [reflexivity|].
  cbn [formatLoopSparse formatLoop]. rewrite IH, list_lookup_fmap.
  now destruct (records !! i).
Qed.

Lemma successCountSparse_dense (records : list FetchedContent) :
  successCountSparse (Some <$> records) = successCount records.
Proof.
  unfold successCountSparse, successCount.
  induction records as [|f records IH]; [reflexivity|].
  rewrite fmap_cons, !filter_cons.
  destruct (success f) eqn:Hok.
  - rewrite (decide_True (P := success <$> Some f = Some true)) by (cbn; now rewrite Hok).
    rewrite (decide_True (P := true = true)) by reflexivity.
    cbn [length]. now rewrite IH.
  - rewrite (decide_False (P := success <$> Some f = Some true))
      by (cbn; rewrite Hok; discriminate).
    rewrite (decide_False (P := false = true)) by discriminate.
    exact IH.
Qed.

Lemma totalWordsSparse_dense (records : list FetchedContent) :
  totalWordsSparse (Some <$> records) = totalWords records.
Proof.
  unfold totalWordsSparse, totalWords.
  assert (Hfrom : forall start,
            foldl (fun sum slot =>
                     match slot with
                     | Some c => sum + default 0 (wordCount c)
                     | None => sum
                     end) start (Some <$> records)
            = foldl (fun sum c => sum + default 0 (wordCount c)) start records).
  { induction records as [|f records IH]; intros start; [reflexivity|]. cbn. apply IH. }
  apply Hfrom.
Qed.

(** On an array without holes the report is the one of [formatResponse]. *)
Lemma formatResponseSparse_dense (toLocaleString : nat -> string) (query : string)
    (searchResults : list SearchResult) (records : list FetchedContent)
    (maxContentPerPage : Z) (searchType : SearchType) :
  formatResponseSparse toLocaleString query searchResults (Some <$> records)
    maxContentPerPage searchType
  = formatResponse toLocaleString query searchResults records maxContentPerPage searchType.
Proof.
  unfold formatResponseSparse, formatResponse.
  now rewrite formatLoopSparse_dense, successCountSparse_dense, totalWordsSparse_dense.
Qed.

Section SearchProperties.

Variable toLocaleString : nat -> string.
Variable pageTitle : string -> completion string.
Variable readabilityText : string -> string -> completion (option string).
Variable cheerioContent : string -> completion string.
Variable provider : Provider.
Variable nets : nat -> Network.

Local Abbreviation fetchUrl := (fetchUrl pageTitle readabilityText cheerioContent).
Local Abbreviation deep_search :=
  (deep_search toLocaleString pageTitle readabilityText cheerioContent).
Local Abbreviation deep_search_news :=
  (deep_search_news toLocaleString pageTitle readabilityText cheerioContent).

(** A search that the provider answers with a parsed body. *)
Lemma googleSearch_answered (key query : string) (numResults : Z) (searchType : SearchType)
    (reply : SearchReply) (data : SerperResponse) :
  truthy key = true ->
  provider (searchEndpoint searchType) key query numResults = Normal reply ->
  replyOk reply = true ->
  json reply = Normal data ->
  googleSearch (Some key) provider query numResults searchType
  = ([Request (searchEndpoint searchType)], Normal (searchResultsOf searchType data)).
Proof.
  intros Hkey Hreply Hok Hjson. unfold googleSearch. rewrite Hkey.
  unfold bind at 1. rewrite Hreply, Hok. cbn [negb]. cbn. now rewrite Hjson.
Qed.

(** X16. Without an API key, unset or empty, no request is sent, and both
    tools answer with an error result that names the variable, whatever
    the query and its filters are. *)
Theorem handlers_require_api_key (query : string) (num_results max_content_per_page : Z)
    (search_type : SearchType) (include_domains exclude_domains : option string)
    (fuel : nat) (apiKey : option string) :
  default EmptyString apiKey = EmptyString ->
  trace (googleSearch apiKey provider query num_results search_type) = [] /\
  deep_search apiKey provider nets query num_results max_content_per_page search_type
    include_domains exclude_domains fuel
  = Some {| toolText := "Error performing deep search: "
                        +:+ "SERPER_API_KEY environment variable is required";
            isError := true |} /\
  deep_search_news apiKey provider nets query num_results max_content_per_page fuel
  = Some {| toolText := "Error performing news search: "
                        +:+ "SERPER_API_KEY environment variable is required";
            isError := true |}.
Proof.
  intros Hkey. destruct apiKey as [key|]; cbn in Hkey; [subst key|]; now repeat split.
Qed.

(** X17. A status of the provider outside 200-299 is not retried: the
    search makes its one request, and [deep_search] answers with an error
    result that gives the status and its text. *)
Theorem deep_search_provider_error (key query : string) (num_results max_content_per_page : Z)
    (search_type : SearchType) (include_domains exclude_domains : option string)
    (fuel : nat) (reply : SearchReply) :
  truthy key = true ->
  provider (searchEndpoint search_type) key
    (buildSearchQuery query include_domains exclude_domains) num_results = Normal reply ->
  replyOk reply = false ->
  trace (googleSearch (Some key) provider
           (buildSearchQuery query include_domains exclude_domains) num_results search_type)
  = [Request (searchEndpoint search_type)] /\
  deep_search (Some key) provider nets query num_results max_content_per_page search_type
    include_domains exclude_domains fuel
  = Some {| toolText := "Error performing deep search: Serper API error: "
                        +:+ numberToString (reply_status reply) +:+ " " +:+ statusText reply;
            isError := true |}.
Proof.
  intros Hkey Hreply Hok.
  assert (Hsearch :
            googleSearch (Some key) provider
              (buildSearchQuery query include_domains exclude_domains) num_results search_type
            = ([Request (searchEndpoint search_type)],
               Throw (JsError ("Serper API error: " +:+ numberToString (reply_status reply)
                               +:+ " " +:+ statusText reply)))).
  { unfold googleSearch. rewrite Hkey. unfold bind. now rewrite Hreply, Hok. }
  split; [now rewrite Hsearch|].
  unfold deep_search. now rewrite Hsearch.
Qed.

(** X18. For an image search, the images of the answer become the search
    results, one each and in order: the title and the link of the page,
    the URL of the image as the snippet, and the positions 1, 2, 3, ...
    whatever positions the provider gave. *)
Theorem googleSearch_image_results (key query : string) (numResults : Z)
    (reply : SearchReply) (data : SerperResponse) (found : list SerperImage) :
  truthy key = true ->
  provider (searchEndpoint images) key query numResults = Normal reply ->
  replyOk reply = true ->
  json reply = Normal data ->
  data_images data = Some found ->
  exists results,
    outcome (googleSearch (Some key) provider query numResults images) = Normal results /\
    length results = length found /\
    forall i img, found !! i = Some img ->
      results !! i
      = Some {| sr_title := img_title img; link := img_link img; snippet := imageUrl img;
                position := Z.of_nat i + 1; date := None |}.
Proof.
  intros Hkey Hreply Hok Hjson Himages.
  rewrite (googleSearch_answered key query numResults images reply data Hkey Hreply Hok Hjson).
  unfold searchResultsOf. rewrite Himages.
  exists (imageResults found). split; [reflexivity|]. unfold imageResults.
  split; [apply length_imap|].
  intros i img Himg. now rewrite list_lookup_imap, Himg.
Qed.

(** X19. A search without results is no error. When the answer of the
    provider gives no result for the search type (the array is absent or
    empty), [deep_search] answers with the plain message that no results
    were found for the query, quoting the query as the user gave it,
    without the domain filters. *)
Theorem deep_search_no_results (key query : string) (num_results max_content_per_page : Z)
    (search_type : SearchType) (include_domains exclude_domains : option string)
    (fuel : nat) (reply : SearchReply) (data : SerperResponse) :
  truthy key = true ->
  provider (searchEndpoint search_type) key
    (buildSearchQuery query include_domains exclude_domains) num_results = Normal reply ->
  replyOk reply = true ->
  json reply = Normal data ->
  searchResultsOf search_type data = [] ->
  deep_search (Some key) provider nets query num_results max_content_per_page search_type
    include_domains exclude_domains fuel
  = Some {| toolText := "No search results found for: " +:+ dquote +:+ query +:+ dquote;
            isError := false |}.
Proof.
  intros Hkey Hreply Hok Hjson Hnone. unfold deep_search.
  rewrite (googleSearch_answered key _ num_results search_type reply data
             Hkey Hreply Hok Hjson).
  cbn [outcome snd]. now rewrite Hnone.
Qed.

(** X20. Failures of pages never fail the tool. When the search gives at
    least one result, [deep_search] answers with a report and no error
    flag, whatever the network does with the pages: the report is that of
    [formatResponse] for the query as the user gave it, the search
    results, and one record per result, in order, which is the record
    that [fetchUrl] returned for the link of that result. *)
Theorem deep_search_reports (key query : string) (num_results max_content_per_page : Z)
    (search_type : SearchType) (include_domains exclude_domains : option string)
    (fuel : nat) (reply : SearchReply) (data : SerperResponse) :
  truthy key = true ->
  provider (searchEndpoint search_type) key
    (buildSearchQuery query include_domains exclude_domains) num_results = Normal reply ->
  replyOk reply = true ->
  json reply = Normal data ->
  searchResultsOf search_type data <> [] ->
  length (searchResultsOf search_type data) <= fuel ->
  exists records,
    length records = length (searchResultsOf search_type data) /\
    (forall i search, searchResultsOf search_type data !! i = Some search ->
       exists f, records !! i = Some f /\
                 outcome (fetchUrl (nets i) (link search) 100000) = Normal f) /\
    deep_search (Some key) provider nets query num_results max_content_per_page search_type
      include_domains exclude_domains fuel
    = Some {| toolText := formatResponse toLocaleString query
                            (searchResultsOf search_type data) records
                            max_content_per_page search_type;
              isError := false |}.
Proof.
  intros Hkey Hreply Hok Hjson Hsome Hfuel.
  set (searchResults := searchResultsOf search_type data) in *.
  destruct (fetchAllUrls_returns_records pageTitle readabilityText cheerioContent nets
              (map link searchResults) 5 fuel) as (records & Hrun & Hlen & Hslots);
    [lia | now rewrite length_map|].
  rewrite length_map in Hlen.
  exists records. split; [exact Hlen|]. split.
  - intros i search Hsearch. apply (Hslots i (link search)).
    change (map link searchResults) with (link <$> searchResults).
    now rewrite list_lookup_fmap, Hsearch.
  - unfold deep_search.
    rewrite (googleSearch_answered key _ num_results search_type reply data
               Hkey Hreply Hok Hjson).
    cbn [outcome snd]. fold searchResults.
    destruct (Nat.eqb_spec (length searchResults) 0) as [Hzero|_].
    + destruct searchResults; [congruence | discriminate Hzero].
    + unfold fetchAndFormat. rewrite Hrun. now rewrite formatResponseSparse_dense.
Qed.


End SearchProperties.

(** Both tools without the variable set. *)
Lemma handlers_require_api_key_witness :
  trace (googleSearch None (constantProvider (okReply sampleData)) "cats" 10 web) = [] /\
  deep_search toLocaleStringEnUS sampleTitle sampleReadability sampleCheerio
    None (constantProvider (okReply sampleData)) servedPages "cats" 10 50000 web None None 1
  = Some {| toolText := "Error performing deep search: "
                        +:+ "SERPER_API_KEY environment variable is required";
            isError := true |} /\
  deep_search_news toLocaleStringEnUS sampleTitle sampleReadability sampleCheerio
    None (constantProvider (okReply sampleData)) servedPages "cats" 10 50000 1
  = Some {| toolText := "Error performing news search: "
                        +:+ "SERPER_API_KEY environment variable is required";
            isError := true |}.
Proof.
  apply (handlers_require_api_key toLocaleStringEnUS sampleTitle sampleReadability
           sampleCheerio (constantProvider (okReply sampleData)) servedPages
           "cats" 10 50000 web None None 1 None).
  reflexivity.
Defined.

(** A key that the provider refuses. *)
Lemma deep_search_provider_error_witness :
  trace (googleSearch (Some "wrong-key") (constantProvider forbiddenReply)
           (buildSearchQuery "cats" (Some "a.com") None) 10 web)
  = [Request (searchEndpoint web)] /\
  deep_search toLocaleStringEnUS sampleTitle sampleReadability sampleCheerio
    (Some "wrong-key") (constantProvider forbiddenReply) servedPages
    "cats" 10 50000 web (Some "a.com") None 1
  = Some {| toolText := "Error performing deep search: Serper API error: "
                        +:+ numberToString (reply_status forbiddenReply)
                        +:+ " " +:+ statusText forbiddenReply;
            isError := true |}.
Proof.
  apply (deep_search_provider_error toLocaleStringEnUS sampleTitle sampleReadability
           sampleCheerio (constantProvider forbiddenReply) servedPages
           "wrong-key" "cats" 10 50000 web (Some "a.com") None 1 forbiddenReply);
    reflexivity.
Defined.

(** Two images in the answer. *)
Lemma googleSearch_image_results_witness :
  exists results,
    outcome (googleSearch (Some "key") (constantProvider (okReply sampleData)) "cats" 10 images)
    = Normal results /\
    length results = length [sampleImage; sampleImage] /\
    forall i img, [sampleImage; sampleImage] !! i = Some img ->
      results !! i
      = Some {| sr_title := img_title img; link := img_link img; snippet := imageUrl img;
                position := Z.of_nat i + 1; date := None |}.
Proof.
  apply (googleSearch_image_results (constantProvider (okReply sampleData))
           "key" "cats" 10 (okReply sampleData) sampleData [sampleImage; sampleImage]);
    reflexivity.
Defined.

(** An answer without any array, to a search with a domain filter. *)
Lemma deep_search_no_results_witness :
  deep_search toLocaleStringEnUS sampleTitle sampleReadability sampleCheerio
    (Some "key") (constantProvider (okReply emptyData)) servedPages
    "cats" 10 50000 web (Some "a.com") None 0
  = Some {| toolText := "No search results found for: " +:+ dquote +:+ "cats" +:+ dquote;
            isError := false |}.
Proof.
  apply (deep_search_no_results toLocaleStringEnUS sampleTitle sampleReadability
           sampleCheerio (constantProvider (okReply emptyData)) servedPages
           "key" "cats" 10 50000 web (Some "a.com") None 0 (okReply emptyData) emptyData);
    reflexivity.
Defined.

(** One search result whose page cannot be reached. *)
Lemma deep_search_reports_witness :
  exists records,
    length records = length (searchResultsOf web sampleData) /\
    (forall i search, searchResultsOf web sampleData !! i = Some search ->
       exists f, records !! i = Some f /\
                 outcome (fetchUrl sampleTitle sampleReadability sampleCheerio
                            (unreachablePages i) (link search) 100000) = Normal f) /\
    deep_search toLocaleStringEnUS sampleTitle sampleReadability sampleCheerio
      (Some "key") (constantProvider (okReply sampleData)) unreachablePages
      "cats" 10 50000 web None None 1
    = Some {| toolText := formatResponse toLocaleStringEnUS "cats"
                            (searchResultsOf web sampleData) records 50000 web;
              isError := false |}.
Proof.
  apply (deep_search_reports toLocaleStringEnUS sampleTitle sampleReadability sampleCheerio
           (constantProvider (okReply sampleData)) unreachablePages
           "key" "cats" 10 50000 web None None 1 (okReply sampleData) sampleData).
  - reflexivity.
  - reflexivity.
  - reflexivity.
  - reflexivity.
  - discriminate.
  - cbn. lia.
Defined.


(** X22. A timeout ends the call at whatever attempt it comes. When the
    attempts before attempt [n] fail in a way that is retried and attempt
    [n], one of the [maxRetries] allowed, is rejected with an error whose
    message mentions a timeout, the call makes [n + 1] requests with the
    [n] pauses of the schedule and throws that error. *)
Theorem fetchWithRetry_timeout_stops_retries (net : Network) (u : string)
    (maxRetries : nat) (baseDelay : Z) (n : nat) (reason : thrown) :
  n < maxRetries ->
  (forall j, j < n -> is_Some (retryableFailure (net j))) ->
  net n = Throw reason ->
  includes (errorMessage reason) "timeout" = true ->
  fetchWithRetry net u maxRetries baseDelay
  = (schedule u baseDelay (S n), Throw (JsError (errorMessage reason))).
Proof.
  intros Hn Hfail Hnet Htimeout. unfold fetchWithRetry.
  replace maxRetries with (n + S (maxRetries - n - 1)) at 2 by lia.
  destruct (retryLoop_skip_failures net u maxRetries baseDelay
              (fun j => default EmptyString (retryableFailure (net j)))
              (S (maxRetries - n - 1)) n 0 None) as [lastError' ->]; [lia | |].
  - intros j Hj. apply attemptOnce_retryable.
    destruct (Hfail j) as [e He]; [lia|]. now rewrite He.
  - cbn [Nat.add].
    rewrite (retryLoop_stops_on_throw net u maxRetries baseDelay _ n lastError'
               (JsError (errorMessage reason))).
    + reflexivity.
    + rewrite (attemptOnce_rejected net u n reason Hnet). now rewrite Htimeout.
Qed.

(** A server error, then the deadline. *)
Lemma fetchWithRetry_timeout_stops_retries_witness :
  fetchWithRetry
    (fun attempt =>
       match attempt with
       | 0 => Normal {| status := 502; text := Normal "bad gateway" |}
       | _ => Throw (JsError "The operation was aborted due to timeout")
       end)
    "https://example.com/" 3 1000
  = (schedule "https://example.com/" 1000 2,
     Throw (JsError "The operation was aborted due to timeout")).
Proof.
  apply (fetchWithRetry_timeout_stops_retries _ "https://example.com/" 3 1000 1
           (JsError "The operation was aborted due to timeout")).
  - lia.
  - intros [|j] Hj; [now eexists | lia].
  - reflexivity.
  - reflexivity.
Defined.


Section DegradedSearch.

Variable toLocaleString : nat -> string.
Variable pageTitle : string -> completion string.
Variable readabilityText : string -> string -> completion (option string).
Variable cheerioContent : string -> completion string.
Variable provider : Provider.
Variable nets : nat -> Network.

Local Abbreviation deep_search :=
  (deep_search toLocaleString pageTitle readabilityText cheerioContent).


End DegradedSearch.

